(** * AURA oculomics inference engine: a shallow embedding

    Source: [backend/oculomics/inference.py].  The module serves ten
    retinal-image tasks; each task has a classifier head that is loaded
    lazily from a checkpoint and kept in [models_cache].  The embedding
    follows the Python text function by function:

    - [Config.TASKS]                      -> [TASKS], [TASKS_get], [TASKS_keys]
    - [reshape_transform_vit]             -> [Vit.reshape_transform_vit]
    - [OcularInferenceAPI.load_model]     -> [load_model]
    - [OcularInferenceAPI.predict_and_explain] -> [predict_and_explain]
    - [OcularInferenceAPI.run_full_profile]    -> [run_full_profile]

    Python exceptions are values of [exn]; a method of the API object is a
    computation in the state-and-exception monad [M] over [api_state].
    Everything outside the process (the checkpoint directory, the image
    file, the pretrained backbone, the saliency library) is read from a
    [world] record. *)

From Stdlib Require Import Reals Lra Ascii.
From stdpp Require Import gmap strings list.

Local Open Scope string_scope.
Local Open Scope list_scope.

(* ===================================================================== *)
(** ** Exceptions and results                                             *)
(* ===================================================================== *)

(** The exception classes that the modelled code raises or receives from
    the libraries it calls.  All of them derive from Python's [Exception];
    what does not ([KeyboardInterrupt], [SystemExit]) is not modelled.
    [FileNotFoundError] and [UnidentifiedImageError] are subclasses of
    [OSError]; only the first one is matched by [except FileNotFoundError]. *)
Inductive exn : Type :=
  | ValueError              (* unknown task; np.argmax of an empty array *)
  | KeyError                (* Config.TASKS[task_name] on an absent key *)
  | FileNotFoundError       (* missing checkpoint; missing image file *)
  | UnidentifiedImageError  (* PIL cannot decode the file *)
  | OSError                 (* from_pretrained cannot obtain the backbone *)
  | RuntimeError.           (* torch: bad checkpoint, bad reshape, .item() *)

Global Instance exn_eq_dec : EqDecision exn.
Proof. solve_decision. Defined.

(** [isinstance(e, FileNotFoundError)] for the classes above. *)
Definition is_FileNotFoundError (e : exn) : bool :=
  match e with FileNotFoundError => true | _ => false end.

Inductive result (A : Type) : Type :=
  | Ok (a : A)
  | Raise (e : exn).
Arguments Ok {A} a.
Arguments Raise {A} e.

Definition is_ok {A} (r : result A) : bool :=
  match r with Ok _ => true | Raise _ => false end.

(* ===================================================================== *)
(** ** Configuration: the task registry                                   *)
(* ===================================================================== *)

Inductive task_kind : Type := regression | binary | multiclass.

Global Instance task_kind_eq_dec : EqDecision task_kind.
Proof. solve_decision. Defined.

(** [Config.TASKS]: {TaskName: (Type, Num_Classes/Output_Dim, Column_Name)}.
    A Python dict literal iterates in the order it is written, so the
    registry is an association list. *)
Definition TASKS : list (string * (task_kind * nat * string)) :=
  [ ("Age",                 (regression, 1, "age"));
    ("Gender",              (binary,     2, "sex"));
    ("Diabetes",            (binary,     2, "diabetes"));
    ("ICDR",                (multiclass, 5, "final_icdr"));
    ("Edema",               (binary,     2, "final_edema"));
    ("Hypertension",        (binary,     2, "systemic_hypertension"));
    ("Cardiovascular_Risk", (binary,     2, "vascular_disease"));
    ("AMI",                 (binary,     2, "acute_myocardial_infarction"));
    ("Neuropathy",          (binary,     2, "neuropathy"));
    ("Nephropathy",         (binary,     2, "nephropathy")) ].

(** [d.get(k)] on an insertion-ordered dict written as a list of items. *)
Fixpoint dict_get {V : Type} (k : string) (d : list (string * V)) : option V :=
  match d with
  | [] => None
  | (k', v) :: d' => if decide (k = k') then Some v else dict_get k d'
  end.

(** [d[k] = v]: an existing key keeps its position, a new key goes last. *)
Fixpoint dict_set {V : Type} (k : string) (v : V) (d : list (string * V))
  : list (string * V) :=
  match d with
  | [] => [(k, v)]
  | (k', v') :: d' =>
      if decide (k = k') then (k, v) :: d' else (k', v') :: dict_set k v d'
  end.

Definition dict_keys {V : Type} (d : list (string * V)) : list string := d.*1.

Definition TASKS_get (task_name : string) : option (task_kind * nat * string) :=
  dict_get task_name TASKS.

Definition TASKS_keys : list string := dict_keys TASKS.

Definition IMG_SIZE : nat := 224.
Definition CAM_DIR : string := "artifacts/gradcam_inference".

(* ===================================================================== *)
(** ** The token-to-grid transform used by the saliency pass              *)
(* ===================================================================== *)

(** A tensor is its shape together with its indexing function; this is
    what slicing, [reshape] and [transpose] act on.  Indices outside the
    shape are never read by the theorems below. *)
Module Vit.
Section Tensor.
Context {A : Type}.

Record tensor3 : Type := Tensor3 {
  size0 : nat; size1 : nat; size2 : nat;
  at3 : nat -> nat -> nat -> A }.

Record tensor4 : Type := Tensor4 {
  dim0 : nat; dim1 : nat; dim2 : nat; dim3 : nat;
  at4 : nat -> nat -> nat -> nat -> A }.

Definition numel3 (t : tensor3) : nat := size0 t * size1 t * size2 t.

(** [tensor[:, 1:, :]]: the slice [1:] of an axis of length 0 is empty. *)
Definition slice_from_1 (t : tensor3) : tensor3 :=
  {| size0 := size0 t; size1 := size1 t - 1; size2 := size2 t;
     at3 := fun b i c => at3 t b (S i) c |}.

(** The sizes torch's [reshape] settles on for a requested [shape]
    (Python ints) and a tensor of [numel] elements.  A dimension below
    -1 is invalid; at most one dimension may be -1, and it is then
    computed from the element count, which the other sizes must divide
    and which must not leave it ambiguous; without a -1 the sizes must
    multiply to the element count.  Every failure is a [RuntimeError]. *)
Definition infer_size (shape : list Z) (numel : nat) : result (list nat) :=
  if existsb (fun d => (d <? -1)%Z) shape then Raise RuntimeError
  else
    let newsize :=
      fold_right (fun d acc => if (d =? -1)%Z then acc else Z.to_nat d * acc)
                 1 shape in
    match length (List.filter (fun d => (d =? -1)%Z) shape) with
    | 0 =>
        if Nat.eqb numel newsize then Ok (map Z.to_nat shape)
        else Raise RuntimeError
    | 1 =>
        if negb (Nat.eqb newsize 0) && Nat.eqb (numel mod newsize) 0
        then Ok (map (fun d => if (d =? -1)%Z then numel / newsize else Z.to_nat d)
                     shape)
        else Raise RuntimeError
    | _ => Raise RuntimeError
    end.

(** The view of [t] under the sizes [n0, n1, n2, n3]: the elements are
    kept in row-major order. *)
Definition view4 (t : tensor3) (n0 n1 n2 n3 : nat) : tensor4 :=
  {| dim0 := n0; dim1 := n1; dim2 := n2; dim3 := n3;
     at4 := fun i j k l =>
       let flat := ((i * n1 + j) * n2 + k) * n3 + l in
       at3 t (flat / (size1 t * size2 t))
             ((flat / size2 t) mod size1 t)
             (flat mod size2 t) |}.

(** [t.reshape(d0, d1, d2, d3)] *)
Definition reshape4 (t : tensor3) (d0 d1 d2 d3 : Z) : result tensor4 :=
  match infer_size [d0; d1; d2; d3] (numel3 t) with
  | Ok [n0; n1; n2; n3] => Ok (view4 t n0 n1 n2 n3)
  | Ok _ => Raise RuntimeError
  | Raise e => Raise e
  end.

(** [t.transpose(2, 3)] *)
Definition transpose_2_3 (t : tensor4) : tensor4 :=
  {| dim0 := dim0 t; dim1 := dim1 t; dim2 := dim3 t; dim3 := dim2 t;
     at4 := fun i j k l => at4 t i j l k |}.

(** [t.transpose(1, 2)] *)
Definition transpose_1_2 (t : tensor4) : tensor4 :=
  {| dim0 := dim0 t; dim1 := dim2 t; dim2 := dim1 t; dim3 := dim3 t;
     at4 := fun i j k l => at4 t i k j l |}.

(** [def reshape_transform_vit(tensor, height=14, width=14)] *)
Definition reshape_transform_vit (tensor : tensor3) (height width : Z)
  : result tensor4 :=
  match reshape4 (slice_from_1 tensor)
          (Z.of_nat (size0 tensor)) height width (Z.of_nat (size2 tensor)) with
  | Raise e => Raise e
  | Ok result => Ok (transpose_1_2 (transpose_2_3 result))
  end.

(** The call the saliency library makes: one positional argument, the
    keyword defaults [height=14, width=14] apply. *)
Definition reshape_transform_vit_default (tensor : tensor3) : result tensor4 :=
  reshape_transform_vit tensor 14 14.

Definition shape4 (t : tensor4) : nat * nat * nat * nat :=
  (dim0 t, dim1 t, dim2 t, dim3 t).

(** [r] is the grid of [tensor] with [rows] rows and [cols] columns:
    shape (batch, channel, rows, cols), the cell (h, w) holding the
    token 1 + h*cols + w. *)
Definition is_grid_of (tensor : tensor3) (rows cols : nat) (r : result tensor4)
  : Prop :=
  exists result,
    r = Ok result /\
    shape4 result = (size0 tensor, size2 tensor, rows, cols) /\
    forall b c h w,
      b < size0 tensor -> c < size2 tensor -> h < rows -> w < cols ->
      at4 result b c h w = at3 tensor b (1 + (h * cols + w)) c.
End Tensor.
Arguments tensor3 : clear implicits.
Arguments tensor4 : clear implicits.

(** A [1, 5, 1] tensor: one summary token and four patch tokens. *)
Definition five_tokens : tensor3 nat :=
  {| size0 := 1; size1 := 5; size2 := 1; at3 := fun _ i _ => i |}.
End Vit.

(* ===================================================================== *)
(** ** Model architecture                                                 *)
(* ===================================================================== *)

(** A decoded RGB image: rows of pixels. *)
Definition rgb_image : Type := list (list (nat * nat * nat)).

(** The value of a floating-point number as the code handles it (a
    tensor element, a Python float): a real number, an infinity or NaN.
    Rounding is not described here; it is part of the functions that
    produce these values ([sd_logit], [F_softmax], [round2]). *)
Inductive pyfloat : Type :=
  | Finite (r : R)
  | PosInf
  | NegInf
  | NaN.

Definition is_nan (x : pyfloat) : bool :=
  match x with NaN => true | _ => false end.

Definition is_finite (x : pyfloat) : Prop :=
  match x with Finite _ => True | _ => False end.

(** [x <= y] on floats: false as soon as one side is NaN. *)
Definition float_le (x y : pyfloat) : bool :=
  match x, y with
  | NaN, _ | _, NaN => false
  | NegInf, _ => true
  | _, PosInf => true
  | PosInf, _ => false
  | Finite _, NegInf => false
  | Finite a, Finite b => if Rle_dec a b then true else false
  end.

(** The parameters stored in one checkpoint.  [sd_out_features] is the
    row count of [classifier.weight]; [sd_logit x j] is the value that
    output unit [j] of the network with these parameters takes on the
    preprocessed image [x]. *)
Record state_dict : Type := StateDict {
  sd_out_features : nat;
  sd_logit : rgb_image -> nat -> pyfloat }.

(** [FoundationalCVModelWithClassifier]: the [FoundationalCVModel] object
    it wraps (an object identity), the width of [self.classifier], and
    the parameters installed by [load_state_dict]. *)
Record Classifier : Type := MkClassifier {
  backbone : nat;
  num_classes : nat;
  weights : state_dict }.

(** [model(input_tensor)]: one logit per output unit of [nn.Linear(_, num_classes)]. *)
Definition forward (model : Classifier) (x : rgb_image) : list pyfloat :=
  map (sd_logit (weights model) x) (seq 0 (num_classes model)).

(** [np.argmax] on floats: the index of the first NaN if there is one,
    else of the first occurrence of the maximum.  numpy's scan replaces
    the running best by an element [x] when [x <= best] is false, and
    stops as soon as the best is NaN. *)
Fixpoint argmax_from (best_i : nat) (best : pyfloat) (i : nat) (l : list pyfloat)
  : nat :=
  match l with
  | [] => best_i
  | x :: l' =>
      if float_le x best then argmax_from best_i best (S i) l'
      else if is_nan x then i
      else argmax_from i x (S i) l'
  end.

Definition argmax (l : list pyfloat) : option nat :=
  match l with
  | [] => None
  | x :: l' => Some (if is_nan x then 0 else argmax_from 0 x 1 l')
  end.

(** [final_result]: a float for a regression task, otherwise the dict
    [{'class': pred_cls, 'probability': pred_prob}]. *)
Inductive prediction : Type :=
  | Scalar (pred_val : pyfloat)
  | ClassProb (pred_cls : nat) (pred_prob : pyfloat).

(** The values held by a per-task entry of the profile. *)
Inductive pyval : Type :=
  | PyPrediction (p : prediction)
  | PyStr (s : string).

(* ===================================================================== *)
(** ** The world outside the process                                      *)
(* ===================================================================== *)

Inductive ckpt_file : Type :=
  | CkptMissing                       (* ckpt_path.exists() is False *)
  | CkptCorrupt                       (* torch.load raises *)
  | CkptGood (sd : state_dict).

Inductive image_file : Type :=
  | ImgMissing                        (* Image.open raises FileNotFoundError *)
  | ImgCorrupt                        (* Image.open raises UnidentifiedImageError *)
  | ImgGood (px : rgb_image).

Record world : Type := World {
  (** does [ViTModel.from_pretrained] succeed *)
  backbone_available : bool;
  (** the file at a checkpoint path *)
  checkpoint : string -> ckpt_file;
  (** the file at an image path *)
  image_at : string -> image_file;
  (** the saliency pass, the overlay and [plt.savefig] for a task:
      [None] when they complete, [Some e] when one of them raises [e] *)
  gradcam_failure : string -> option exn;
  (** [Path(p).stem] *)
  path_stem : string -> string;
  (** [F.softmax(preds, dim=1)] on one row of logits, as torch computes
      it in floating point *)
  F_softmax : list pyfloat -> list pyfloat }.

(** What is used of torch's softmax: it keeps the length of the row,
    each component is NaN or a number in [0,1], and a row of finite
    logits gives finite components. *)
Definition softmax_contract (sm : list pyfloat -> list pyfloat) : Prop :=
  forall l,
    length (sm l) = length l /\
    (forall p, p ∈ sm l -> p = NaN \/ exists r, p = Finite r /\ (0 <= r <= 1)%R) /\
    (Forall is_finite l -> Forall is_finite (sm l)).

(* ===================================================================== *)
(** ** The inference API object                                           *)
(* ===================================================================== *)

Inductive io_event : Type :=
  | IoFromPretrained                  (* ViTModel.from_pretrained(...) *)
  | IoExists (path : string)          (* ckpt_path.exists() *)
  | IoTorchLoad (path : string)       (* torch.load(ckpt_path) *)
  | IoImageOpen (path : string)       (* Image.open(img_path) *)
  | IoSaveFig (path : string).        (* plt.savefig(save_path) *)

Global Instance io_event_eq_dec : EqDecision io_event.
Proof. solve_decision. Defined.

(** The two lines printed by the handlers of [run_full_profile]. *)
Inductive line : Type :=
  | PrintSkipping (task : string)             (* "Skipping {task} (Model weights not found)." *)
  | PrintError (task : string) (e : exn).     (* "Error running {task}: {e}" *)

(** [self] of [OcularInferenceAPI], extended with what the process has
    done so far: the objects allocated, the I/O performed, the lines
    printed by [run_full_profile]. *)
Record api_state : Type := ApiState {
  checkpoint_dir : string;
  models_cache : gmap string Classifier;
  next_object : nat;
  io_log : list io_event;
  stdout : list line }.

(** [OcularInferenceAPI(checkpoint_dir)]: an empty cache. *)
Definition api_init (dir : string) : api_state :=
  {| checkpoint_dir := dir; models_cache := ∅; next_object := 0;
     io_log := []; stdout := [] |}.

Definition M (A : Type) : Type := api_state -> result A * api_state.

Definition ret {A} (a : A) : M A := fun s => (Ok a, s).
Definition raise {A} (e : exn) : M A := fun s => (Raise e, s).
Definition bind {A B} (c : M A) (k : A -> M B) : M B :=
  fun s => match c s with
           | (Ok a, s') => k a s'
           | (Raise e, s') => (Raise e, s')
           end.

(** [try: body except Exception as e: handler(e)] *)
Definition try_except {A} (body : M A) (handler : exn -> M A) : M A :=
  fun s => match body s with
           | (Ok a, s') => (Ok a, s')
           | (Raise e, s') => handler e s'
           end.

Notation "'let*' x ':=' c 'in' k" := (bind c (fun x => k))
  (at level 10, x pattern, c at level 100, k at level 200).
Notation "c ';;' k" := (bind c (fun _ => k))
  (at level 100, k at level 200, right associativity).

Definition io (ev : io_event) : M unit := fun s =>
  (Ok tt, {| checkpoint_dir := checkpoint_dir s; models_cache := models_cache s;
             next_object := next_object s; io_log := io_log s ++ [ev];
             stdout := stdout s |}).

Definition print (l : line) : M unit := fun s =>
  (Ok tt, {| checkpoint_dir := checkpoint_dir s; models_cache := models_cache s;
             next_object := next_object s; io_log := io_log s;
             stdout := stdout s ++ [l] |}).

Definition new_object : M nat := fun s =>
  (Ok (next_object s),
   {| checkpoint_dir := checkpoint_dir s; models_cache := models_cache s;
      next_object := S (next_object s); io_log := io_log s;
      stdout := stdout s |}).

(** [self.models_cache[task_name] = model] *)
Definition cache_store (task_name : string) (model : Classifier) : M unit := fun s =>
  (Ok tt, {| checkpoint_dir := checkpoint_dir s;
             models_cache := <[task_name := model]> (models_cache s);
             next_object := next_object s; io_log := io_log s;
             stdout := stdout s |}).

Definition get_cache : M (gmap string Classifier) := fun s => (Ok (models_cache s), s).
Definition get_checkpoint_dir : M string := fun s => (Ok (checkpoint_dir s), s).

Section Api.
Variable w : world.

(** [FoundationalCVModel(backbone='vit_base', mode='eval')]: fetches the
    pretrained ViT and returns a new object. *)
Definition FoundationalCVModel_new : M nat :=
  io IoFromPretrained ;;
  if backbone_available w then new_object else raise OSError.

(** [self.checkpoint_dir / f"best_model_{task_name}.pth"] *)
Definition ckpt_path_of (dir task_name : string) : string :=
  dir +:+ "/best_model_" +:+ task_name +:+ ".pth".

(** [torch.load(ckpt_path, map_location=self.device)] *)
Definition torch_load (path : string) : M state_dict :=
  io (IoTorchLoad path) ;;
  match checkpoint w path with
  | CkptGood sd => ret sd
  | _ => raise RuntimeError
  end.

(** [model.load_state_dict(sd)], strict: the shapes must agree. *)
Definition load_state_dict (base_vit n : nat) (sd : state_dict) : M Classifier :=
  if decide (sd_out_features sd = n)
  then ret {| backbone := base_vit; num_classes := n; weights := sd |}
  else raise RuntimeError.

Definition load_model (task_name : string) : M Classifier :=
  let* cache := get_cache in
  match cache !! task_name with
  | Some model => ret model
  | None =>
      match TASKS_get task_name with
      | None => raise ValueError
      | Some (_, n, _) =>
          let* base_vit := FoundationalCVModel_new in
          let* dir := get_checkpoint_dir in
          let ckpt_path := ckpt_path_of dir task_name in
          io (IoExists ckpt_path) ;;
          match checkpoint w ckpt_path with
          | CkptMissing => raise FileNotFoundError
          | _ =>
              let* sd := torch_load ckpt_path in
              let* model := load_state_dict base_vit n sd in
              cache_store task_name model ;;
              ret model
          end
      end
  end.

(** [preload_all_models]: every failure is caught and reported. *)
Fixpoint preload_loop (tasks : list string) : M unit :=
  match tasks with
  | [] => ret tt
  | task :: rest =>
      try_except (load_model task ;; ret tt) (fun _ => ret tt) ;;
      preload_loop rest
  end.

Definition preload_all_models : M unit := preload_loop TASKS_keys.

(** [Image.open(img_path).convert('RGB')] *)
Definition Image_open (img_path : string) : M rgb_image :=
  io (IoImageOpen img_path) ;;
  match image_at w img_path with
  | ImgMissing => raise FileNotFoundError
  | ImgCorrupt => raise UnidentifiedImageError
  | ImgGood px => ret px
  end.

(** Lines 196-207: the task kind selects the decoding.  The first
    component is [final_result], the second [target_class_idx]. *)
Definition decode (task_type : task_kind) (preds : list pyfloat)
  : result (prediction * nat) :=
  if decide (task_type = regression) then
    match preds with
    | [pred_val] => Ok (Scalar pred_val, 0)
    | _ => Raise RuntimeError          (* .item() needs one element *)
    end
  else
    let probs := F_softmax w preds in
    match argmax probs with
    | None => Raise ValueError         (* np.argmax of an empty array *)
    | Some pred_cls =>
        let pred_prob := nth pred_cls probs NaN in
        Ok (ClassProb pred_cls pred_prob, pred_cls)
    end.

(** [Config.CAM_DIR / f"{img_filename}_{task_name}_cam.png"] *)
Definition save_path_of (img_path task_name : string) : string :=
  CAM_DIR +:+ "/" +:+ path_stem w img_path +:+ "_" +:+ task_name +:+ "_cam.png".

(** Steps 3 and 4: the saliency pass, the overlay and the figure. *)
Definition gradcam_and_save (task_name save_path : string) : M unit :=
  match gradcam_failure w task_name with
  | Some e => raise e
  | None => io (IoSaveFig save_path)
  end.

Definition predict_and_explain (img_path task_name : string)
  : M (prediction * string) :=
  let* model := load_model task_name in
  match TASKS_get task_name with
  | None => raise KeyError
  | Some (task_type, _, _) =>
      let* orig_img := Image_open img_path in
      let preds := forward model orig_img in
      match decode task_type preds with
      | Raise e => raise e
      | Ok (final_result, _) =>
          let save_path := save_path_of img_path task_name in
          gradcam_and_save task_name save_path ;;
          ret (final_result, save_path)
      end
  end.

(** The value stored under a task name by [run_full_profile]. *)
Definition profile_entry (pred : prediction) (map_path : string)
  : list (string * pyval) :=
  [("prediction", PyPrediction pred); ("attention_map", PyStr map_path)].

(** The body of the [for] loop of [run_full_profile], with its two
    handlers. *)
Definition profile_step (img_path task : string)
    (results : list (string * list (string * pyval)))
  : M (list (string * list (string * pyval))) :=
  try_except
    (let* (pred, map_path) := predict_and_explain img_path task in
     ret (dict_set task (profile_entry pred map_path) results))
    (fun e =>
       if is_FileNotFoundError e
       then print (PrintSkipping task) ;; ret results
       else print (PrintError task e) ;; ret results).

Fixpoint profile_loop (img_path : string) (tasks : list string)
    (results : list (string * list (string * pyval)))
  : M (list (string * list (string * pyval))) :=
  match tasks with
  | [] => ret results
  | task :: rest =>
      let* results' := profile_step img_path task results in
      profile_loop img_path rest results'
  end.

Definition run_full_profile (img_path : string)
  : M (list (string * list (string * pyval))) :=
  profile_loop img_path TASKS_keys [].
End Api.

(* ===================================================================== *)
(** ** Concrete worlds used by the examples                               *)
(* ===================================================================== *)

(** A checkpoint directory ["ckpt"] that holds trained heads for [Age]
    and [Gender] only; every unit of both heads outputs 0. *)
Definition zero_head (n : nat) : state_dict :=
  {| sd_out_features := n; sd_logit := fun _ _ => Finite 0%R |}.

(** A softmax for the example worlds, exact on the values: NaN
    everywhere when a logit is NaN or +inf or when all are -inf (the
    subtraction of the maximum is then NaN), otherwise
    exp(x_i) / sum_j exp(x_j) with exp(-inf) = 0. *)
Definition exp_weight (x : pyfloat) : R :=
  match x with Finite r => exp r | _ => 0%R end.

Definition softmax_defined (l : list pyfloat) : bool :=
  forallb (fun x => match x with Finite _ | NegInf => true | _ => false end) l
  && existsb (fun x => match x with Finite _ => true | _ => false end) l.

Definition exact_softmax (l : list pyfloat) : list pyfloat :=
  if softmax_defined l
  then map (fun x => Finite (exp_weight x /
                             fold_right Rplus 0%R (map exp_weight l))%R) l
  else map (fun _ => NaN) l.

Definition two_checkpoints (path : string) : ckpt_file :=
  if decide (path = "ckpt/best_model_Age.pth") then CkptGood (zero_head 1)
  else if decide (path = "ckpt/best_model_Gender.pth") then CkptGood (zero_head 2)
  else CkptMissing.

Definition demo_world (img : image_file) : world :=
  {| backbone_available := true;
     checkpoint := two_checkpoints;
     image_at := fun _ => img;
     gradcam_failure := fun _ => None;
     path_stem := fun _ => "scan";
     F_softmax := exact_softmax |}.

(** The same directory on a machine that cannot fetch the pretrained
    backbone. *)
Definition offline_world (img : image_file) : world :=
  {| backbone_available := false;
     checkpoint := two_checkpoints;
     image_at := fun _ => img;
     gradcam_failure := fun _ => None;
     path_stem := fun _ => "scan";
     F_softmax := exact_softmax |}.

(** A directory whose [Age] checkpoint cannot be read. *)
Definition corrupt_age_checkpoint (path : string) : ckpt_file :=
  if decide (path = "ckpt/best_model_Age.pth") then CkptCorrupt
  else two_checkpoints path.

Definition corrupt_checkpoint_world (img : image_file) : world :=
  {| backbone_available := true;
     checkpoint := corrupt_age_checkpoint;
     image_at := fun _ => img;
     gradcam_failure := fun _ => None;
     path_stem := fun _ => "scan";
     F_softmax := exact_softmax |}.

(** Checkpoints that load but whose heads do not output finite numbers:
    the [Age] unit gives +inf, the first [Gender] unit gives NaN. *)
Definition nonfinite_checkpoints (path : string) : ckpt_file :=
  if decide (path = "ckpt/best_model_Age.pth")
  then CkptGood {| sd_out_features := 1; sd_logit := fun _ _ => PosInf |}
  else if decide (path = "ckpt/best_model_Gender.pth")
  then CkptGood {| sd_out_features := 2;
                   sd_logit := fun _ j => match j with 0 => NaN | _ => Finite 0%R end |}
  else CkptMissing.

Definition nonfinite_world : world :=
  {| backbone_available := true;
     checkpoint := nonfinite_checkpoints;
     image_at := fun _ => ImgGood [[(0, 0, 0)]];
     gradcam_failure := fun _ => None;
     path_stem := fun _ => "scan";
     F_softmax := exact_softmax |}.

Definition black_image : rgb_image := [[(0, 0, 0)]].

(** A [Gender] head as [load_model] would build it in [demo_world]. *)
Definition gender_model : Classifier :=
  {| backbone := 1; num_classes := 2; weights := zero_head 2 |}.

(** The model that the first [load_model "Age"] of a fresh API object
    builds in [demo_world]. *)
Definition age_model : Classifier :=
  {| backbone := 0; num_classes := 1; weights := zero_head 1 |}.

(** A fresh API object after [load_model "Age"], and after
    [load_model "Gender"] on top of that. *)
Definition age_loaded : api_state :=
  (load_model (demo_world ImgMissing) "Age" (api_init "ckpt")).2.

Definition age_gender_loaded : api_state :=
  (load_model (demo_world ImgMissing) "Gender" age_loaded).2.

(** [run_full_profile] of a fresh API object on a file that PIL cannot
    decode. *)
Definition corrupt_run
  : result (list (string * list (string * pyval))) * api_state :=
  run_full_profile (demo_world ImgCorrupt) "scan.jpg" (api_init "ckpt").

(* ===================================================================== *)
(** ** Observations on a state and on a run                               *)
(* ===================================================================== *)

Definition is_savefig (ev : io_event) : bool :=
  match ev with IoSaveFig _ => true | _ => false end.

(** The heatmap files written so far. *)
Definition saved_figs (s : api_state) : list io_event :=
  filter (fun ev => is_savefig ev = true) (io_log s).

(** How many times the pretrained backbone has been fetched. *)
Definition backbone_loads (s : api_state) : nat :=
  length (filter (fun ev => ev = IoFromPretrained) (io_log s)).

Definition is_torch_load (ev : io_event) : bool :=
  match ev with IoTorchLoad _ => true | _ => false end.

(** How many checkpoint files have been read. *)
Definition checkpoint_reads (s : api_state) : nat :=
  length (filter (fun ev => is_torch_load ev = true) (io_log s)).

(** Does [predict_and_explain] return normally from state [s]. *)
Definition task_succeeds (w : world) (img_path : string) (s : api_state)
    (task : string) : bool :=
  is_ok (predict_and_explain w img_path task s).1.

(** The exception, if any, with which [predict_and_explain] leaves [s]. *)
Definition task_exn (w : world) (img_path : string) (s : api_state)
    (task : string) : option exn :=
  match (predict_and_explain w img_path task s).1 with
  | Ok _ => None
  | Raise e => Some e
  end.

(** The line printed for a task that [run_full_profile] omits. *)
Definition report (w : world) (img_path : string) (s : api_state)
    (task : string) : option line :=
  match task_exn w img_path s task with
  | None => None
  | Some e => Some (if is_FileNotFoundError e then PrintSkipping task
                    else PrintError task e)
  end.

(** The exception, if any, with which [load_model] leaves state [s]. *)
Definition load_failure (w : world) (s : api_state) (task : string) : option exn :=
  match (load_model w task s).1 with
  | Ok _ => None
  | Raise e => Some e
  end.

(** A complete per-task entry of a profile: the key is a registered task
    and the value holds exactly a prediction and an attention-map path. *)
Definition full_entry (item : string * list (string * pyval)) : Prop :=
  item.1 ∈ TASKS_keys /\
  exists pred map_path,
    item.2 = [("prediction", PyPrediction pred); ("attention_map", PyStr map_path)].

(** The line that [run_full_profile] prints for a task when the image
    file does not exist: a failure of [load_model] is reported as it is,
    and the [FileNotFoundError] of [Image.open] as missing weights. *)
Definition missing_image_line (w : world) (s : api_state) (task : string) : line :=
  match load_failure w s task with
  | Some e => if is_FileNotFoundError e then PrintSkipping task
              else PrintError task e
  | None => PrintSkipping task
  end.

(** The calls a client can make on the API object, and the states they
    lead to from a fresh object. *)
Inductive api_call : Type :=
  | CallLoad (task_name : string)
  | CallPreload
  | CallPredict (img_path task_name : string)
  | CallProfile (img_path : string).

Definition run_call (w : world) (c : api_call) (s : api_state) : api_state :=
  match c with
  | CallLoad t => (load_model w t s).2
  | CallPreload => (preload_all_models w s).2
  | CallPredict img t => (predict_and_explain w img t s).2
  | CallProfile img => (run_full_profile w img s).2
  end.

Inductive reachable (w : world) : api_state -> Prop :=
  | reach_init dir : reachable w (api_init dir)
  | reach_call s c : reachable w s -> reachable w (run_call w c s).

(** Every cached name is registered with the width of the cached head,
    every cached backbone is an allocated object, no two cache entries
    wrap the same backbone object, and the parameters of a cached model
    are those of the checkpoint file of its task. *)
Definition cache_wf (w : world) (s : api_state) : Prop :=
  forall t m, models_cache s !! t = Some m ->
    (exists k c, TASKS_get t = Some (k, num_classes m, c)) /\
    backbone m < next_object s /\
    (forall t' m', t' <> t -> models_cache s !! t' = Some m' ->
                   backbone m' <> backbone m) /\
    checkpoint w (ckpt_path_of (checkpoint_dir s) t) = CkptGood (weights m).

(* ===================================================================== *)
(** ** Further observations                                               *)
(* ===================================================================== *)

(** What a cache slot contributes to a prediction: the width of the
    head and its parameters, not the identity of the backbone object. *)
Definition head_of (slot : option Classifier) : option (nat * state_dict) :=
  (fun m => (num_classes m, weights m)) <$> slot.

(** The part of [predict_and_explain] that follows [load_model]: its
    result for a given model. *)
Definition explain_outcome (w : world) (img_path task_name : string)
    (model : Classifier) : result (prediction * string) :=
  match TASKS_get task_name with
  | None => Raise KeyError
  | Some (task_type, _, _) =>
      match image_at w img_path with
      | ImgMissing => Raise FileNotFoundError
      | ImgCorrupt => Raise UnidentifiedImageError
      | ImgGood px =>
          match decode w task_type (forward model px) with
          | Raise e => Raise e
          | Ok (final_result, _) =>
              match gradcam_failure w task_name with
              | Some e => Raise e
              | None => Ok (final_result, save_path_of w img_path task_name)
              end
          end
      end
  end.

(** The mapping that the profile loop builds from per-task results. *)
Definition collect_entries (outcome : string -> result (prediction * string))
    (tasks : list string) (results : list (string * list (string * pyval)))
  : list (string * list (string * pyval)) :=
  fold_left
    (fun acc task =>
       match outcome task with
       | Ok (pred, map_path) => dict_set task (profile_entry pred map_path) acc
       | Raise _ => acc
       end)
    tasks results.

(* ===================================================================== *)
(** ** The agent tool: [analyze_retinal_scan]                             *)
(* ===================================================================== *)

(** Source: [backend/agents/oculomics_agent.py], [analyze_retinal_scan],
    with [get_ocular_api] of [inference.py]. *)

(** [os.path.basename(p)]: what follows the last slash. *)
Fixpoint has_slash (p : string) : bool :=
  match p with
  | EmptyString => false
  | String c rest => Ascii.eqb c "/"%char || has_slash rest
  end.

Fixpoint basename (p : string) : string :=
  match p with
  | EmptyString => EmptyString
  | String c rest =>
      if has_slash rest then basename rest
      else if Ascii.eqb c "/"%char then rest else p
  end.

(** The values of the dict that the tool serialises. *)
Inductive json : Type :=
  | JNull
  | JInt (n : nat)
  | JFloat (x : pyfloat)
  | JStr (s : string).

(** What the tool needs from outside the engine: Python's
    [round(x, 2)], whether [backend.oculomics.inference] can be imported
    (torch and the saliency library are installed), and whether
    [OcularInferenceAPI()] can be constructed. *)
Record tool_env : Type := ToolEnv {
  round2 : pyfloat -> pyfloat;
  inference_importable : bool;
  api_constructible : bool }.

(** [Config.CHECKPOINT_DIR], the default of [OcularInferenceAPI()]. *)
Definition CHECKPOINT_DIR : string := "artifacts".

(** The module globals [_api_instance] (inference.py) and
    [_LAST_TOOL_RESULTS] (oculomics_agent.py). *)
Record process : Type := Process {
  api_instance : option api_state;
  LAST_TOOL_RESULTS : list (string * list (string * json)) }.

(** The three JSON documents the tool can return: the "failed to load"
    error, the formatted results, the "Internal inference error". *)
Inductive tool_reply : Type :=
  | ReplyEngineMissing
  | ReplyResults (formatted : list (string * list (string * json)))
  | ReplyInternalError.

(** [get_ocular_api()]: the handle it returns and the global it leaves. *)
Definition get_ocular_api (te : tool_env) (instance : option api_state)
  : option api_state * option api_state :=
  match instance with
  | None =>
      if api_constructible te
      then (Some (api_init CHECKPOINT_DIR), Some (api_init CHECKPOINT_DIR))
      else (None, None)
  | Some api => (Some api, Some api)
  end.

(** The dict built for one task in the loop of the tool. *)
Definition tool_entry (te : tool_env) (pred : prediction) (map_filename : string)
  : list (string * json) :=
  [("prediction",
    match pred with
    | ClassProb pred_cls _ => JInt pred_cls
    | Scalar pred_val => JFloat (round2 te pred_val)
    end);
   ("probability",
    match pred with
    | ClassProb _ pred_prob => JFloat pred_prob
    | Scalar _ => JNull
    end);
   ("gradcam_heatmap_url", JStr ("/gradcam/" +:+ map_filename))].

(** One iteration of that loop on the engine's entry [data]; [None]
    when a subscript or a call in it raises. *)
Definition format_entry (te : tool_env) (data : list (string * pyval))
  : option (list (string * json)) :=
  match dict_get "prediction" data, dict_get "attention_map" data with
  | Some (PyPrediction pred), Some (PyStr map_path) =>
      Some (tool_entry te pred (basename map_path))
  | _, _ => None
  end.

Fixpoint format_loop (te : tool_env)
    (items : list (string * list (string * pyval)))
    (formatted_results : list (string * list (string * json)))
  : option (list (string * list (string * json))) :=
  match items with
  | [] => Some formatted_results
  | (task, data) :: rest =>
      match format_entry te data with
      | None => None
      | Some entry => format_loop te rest (dict_set task entry formatted_results)
      end
  end.

Definition analyze_retinal_scan (te : tool_env) (w : world) (image_path : string)
    (p : process) : tool_reply * process :=
  if negb (inference_importable te) then (ReplyInternalError, p)
  else
    match get_ocular_api te (api_instance p) with
    | (None, instance) =>
        (ReplyEngineMissing,
         {| api_instance := instance; LAST_TOOL_RESULTS := LAST_TOOL_RESULTS p |})
    | (Some ocular_api, _) =>
        match run_full_profile w image_path ocular_api with
        | (Raise _, api') =>
            (ReplyInternalError,
             {| api_instance := Some api'; LAST_TOOL_RESULTS := LAST_TOOL_RESULTS p |})
        | (Ok results, api') =>
            match format_loop te results [] with
            | None =>
                (ReplyInternalError,
                 {| api_instance := Some api';
                    LAST_TOOL_RESULTS := LAST_TOOL_RESULTS p |})
            | Some formatted_results =>
                (ReplyResults formatted_results,
                 {| api_instance := Some api';
                    LAST_TOOL_RESULTS := formatted_results |})
            end
        end
    end.

(** A process in which nothing has been imported or constructed yet, and
    a tool environment in which everything is installed; [round2] is
    left as the identity. *)
Definition fresh_process : process :=
  {| api_instance := None; LAST_TOOL_RESULTS := [] |}.

Definition demo_tool_env : tool_env :=
  {| round2 := fun x => x; inference_importable := true;
     api_constructible := true |}.

(* ===================================================================== *)
(** ** Basic facts                                                        *)
(* ===================================================================== *)

Ltac unfold_M :=
  unfold bind, ret, raise, try_except, io, print, new_object, cache_store,
    get_cache, get_checkpoint_dir in *.

Lemma TASKS_keys_NoDup : NoDup TASKS_keys.
Proof. apply (bool_decide_unpack _). vm_compute. exact I. Qed.

Lemma TASKS_get_keys t : is_Some (TASKS_get t) <-> t ∈ TASKS_keys.
Proof.
  unfold TASKS_get, TASKS_keys, dict_keys.
  induction TASKS as [|[k v] d IH]; simpl.
  - split; [intros [? ?]; discriminate | intros H; inversion H].
  - destruct (decide (t = k)) as [->|Hne].
    + split; [intros _; left | eauto].
    + rewrite IH. split; [right; done | ].
      intros H. inversion H; subst; [congruence | done].
Qed.

(** The cases of [load_model]: a cache hit, an unknown name, or a miss
    that allocates a backbone and then stops at the first failing step. *)
Lemma load_model_cases w t s r s' :
  load_model w t s = (r, s') ->
  checkpoint_dir s' = checkpoint_dir s /\ stdout s' = stdout s /\
  ( (exists m, models_cache s !! t = Some m /\ r = Ok m /\ s' = s)
  \/ (models_cache s !! t = None /\ TASKS_get t = None /\
      r = Raise ValueError /\ s' = s)
  \/ (models_cache s !! t = None /\
      exists k n c, TASKS_get t = Some (k, n, c) /\
      let path := ckpt_path_of (checkpoint_dir s) t in
      ( (backbone_available w = false /\ r = Raise OSError /\
         models_cache s' = models_cache s /\
         next_object s' = next_object s /\
         io_log s' = io_log s ++ [IoFromPretrained])
      \/ (backbone_available w = true /\
          next_object s' = S (next_object s) /\
          ( (checkpoint w path = CkptMissing /\ r = Raise FileNotFoundError /\
             models_cache s' = models_cache s /\
             io_log s' = io_log s ++ [IoFromPretrained; IoExists path])
          \/ (r = Raise RuntimeError /\
              (checkpoint w path = CkptCorrupt \/
               exists sd, checkpoint w path = CkptGood sd /\ sd_out_features sd <> n) /\
              models_cache s' = models_cache s /\
              io_log s' = io_log s ++ [IoFromPretrained; IoExists path; IoTorchLoad path])
          \/ (exists sd, checkpoint w path = CkptGood sd /\ sd_out_features sd = n /\
              r = Ok {| backbone := next_object s; num_classes := n; weights := sd |} /\
              models_cache s' =
                <[t := {| backbone := next_object s; num_classes := n; weights := sd |}]>
                  (models_cache s) /\
              io_log s' = io_log s ++ [IoFromPretrained; IoExists path; IoTorchLoad path])))))).
Proof.
  unfold load_model, FoundationalCVModel_new, torch_load, load_state_dict.
  unfold_M. simpl.
  destruct (models_cache s !! t) as [m|] eqn:Hc.
  { intros [= <- <-]. repeat split; eauto 10. }
  destruct (TASKS_get t) as [[[k n] c]|] eqn:Ht.
  2:{ intros [= <- <-]. repeat split; eauto 10. }
  destruct (backbone_available w) eqn:Hb; simpl.
  2:{ intros [= <- <-]. simpl. do 2 (split; [done|]). right. right.
      (split; [done|]; exists k, n, c; split; [done|]; cbv zeta). left. done. }
  destruct (checkpoint w _) as [| |sd] eqn:Hk; simpl; rewrite ?Hk; simpl.
  - intros [= <- <-]. simpl. do 2 (split; [done|]). right. right.
    (split; [done|]; exists k, n, c; split; [done|]; cbv zeta). right. do 2 (split; [done|]). left.
    rewrite <- !app_assoc. done.
  - intros [= <- <-]. simpl. do 2 (split; [done|]). right. right.
    (split; [done|]; exists k, n, c; split; [done|]; cbv zeta). right. do 2 (split; [done|]). right. left.
    rewrite <- !app_assoc. split_and!; eauto.
  - destruct (decide (sd_out_features sd = n)) as [He|He]; simpl;
      intros [= <- <-]; simpl; (do 2 (split; [done|])); right; right;
      (split; [done|]; exists k, n, c; split; [done|]; cbv zeta); right; (do 2 (split; [done|])); right.
    + right. exists sd. rewrite <- !app_assoc. done.
    + left. rewrite <- !app_assoc. split_and!; eauto.
Qed.

Lemma load_model_hit w t s m :
  models_cache s !! t = Some m -> load_model w t s = (Ok m, s).
Proof. intros H. unfold load_model. unfold_M. by rewrite H. Qed.

(** [predict_and_explain] runs [load_model] and then, without touching
    the cache, opens the image, decodes, explains and saves. *)
Lemma predict_and_explain_cases w img t s r s' :
  predict_and_explain w img t s = (r, s') ->
  exists rl sl, load_model w t s = (rl, sl) /\
    checkpoint_dir s' = checkpoint_dir sl /\
    models_cache s' = models_cache sl /\
    next_object s' = next_object sl /\
    stdout s' = stdout sl /\
    match rl with
    | Raise e => r = Raise e /\ s' = sl
    | Ok m =>
        match TASKS_get t with
        | None => r = Raise KeyError /\ s' = sl
        | Some (k, _, _) =>
            match image_at w img with
            | ImgMissing =>
                r = Raise FileNotFoundError /\
                io_log s' = io_log sl ++ [IoImageOpen img]
            | ImgCorrupt =>
                r = Raise UnidentifiedImageError /\
                io_log s' = io_log sl ++ [IoImageOpen img]
            | ImgGood px =>
                match decode w k (forward m px) with
                | Raise e =>
                    r = Raise e /\ io_log s' = io_log sl ++ [IoImageOpen img]
                | Ok (res, _) =>
                    match gradcam_failure w t with
                    | Some e =>
                        r = Raise e /\ io_log s' = io_log sl ++ [IoImageOpen img]
                    | None =>
                        r = Ok (res, save_path_of w img t) /\
                        io_log s' = io_log sl ++
                          [IoImageOpen img; IoSaveFig (save_path_of w img t)]
                    end
                end
            end
        end
    end.
Proof.
  unfold predict_and_explain, bind at 1.
  destruct (load_model w t s) as [rl sl] eqn:Hl.
  intros H. exists rl, sl. split; [done|].
  destruct rl as [m|e]; [|by injection H as <- <-].
  destruct (TASKS_get t) as [[[k n] c]|]; [|by injection H as <- <-].
  revert H. unfold Image_open, gradcam_and_save. unfold_M. simpl.
  destruct (image_at w img) as [| |px]; simpl;
    try (by intros [= <- <-]).
  destruct (decode w k (forward m px)) as [[res idx]|e]; simpl;
    try (by intros [= <- <-]).
  destruct (gradcam_failure w t) as [e|]; simpl;
    intros [= <- <-]; simpl; rewrite <- ?app_assoc; done.
Qed.

(** One iteration of the profile loop always completes: it either stores
    a full entry or prints one line and leaves the results as they were. *)
Lemma profile_step_cases w img t acc s :
  exists r s', profile_step w img t acc s = (Ok r, s') /\
    exists rp sp, predict_and_explain w img t s = (rp, sp) /\
      checkpoint_dir s' = checkpoint_dir sp /\
      models_cache s' = models_cache sp /\
      next_object s' = next_object sp /\
      io_log s' = io_log sp /\
      match rp with
      | Ok (pred, map_path) =>
          r = dict_set t (profile_entry pred map_path) acc /\ s' = sp
      | Raise e =>
          r = acc /\
          stdout s' = stdout sp ++
            [if is_FileNotFoundError e then PrintSkipping t else PrintError t e]
      end.
Proof.
  unfold profile_step, try_except, bind at 1.
  destruct (predict_and_explain w img t s) as [[[pred map_path]|e] sp] eqn:Hp.
  - unfold ret. eexists _, _. split; [done|]. eexists _, _.
    repeat split.
  - destruct (is_FileNotFoundError e) eqn:He; unfold_M; simpl;
      (eexists _, _; split; [done|]; exists (Raise e), sp; rewrite He; repeat split).
Qed.

(** The invariant rule for the profile loop.  [Inv done results s] is
    stated over the tasks already visited. *)
Lemma profile_loop_rule w img
    (Inv : list string -> list (string * list (string * pyval)) -> api_state -> Prop)
    (tasks : list string) :
  (forall done t rest acc s r s',
      tasks = done ++ t :: rest ->
      Inv done acc s ->
      profile_step w img t acc s = (Ok r, s') ->
      Inv (done ++ [t]) r s') ->
  forall acc s, Inv [] acc s ->
  exists res s', profile_loop w img tasks acc s = (Ok res, s') /\ Inv tasks res s'.
Proof.
  intros Hstep.
  assert (Hgen : forall todo done acc s,
             tasks = done ++ todo -> Inv done acc s ->
             exists res s', profile_loop w img todo acc s = (Ok res, s') /\
                            Inv tasks res s').
  { induction todo as [|t rest IH]; intros done acc s Heq HI.
    - rewrite app_nil_r in Heq. subst. simpl. unfold ret. eauto.
    - simpl. unfold bind.
      destruct (profile_step_cases w img t acc s) as (r & s1 & Hs & _).
      rewrite Hs. apply (IH (done ++ [t])).
      + by rewrite <- app_assoc.
      + eapply Hstep; eauto. }
  intros acc s HI. by apply (Hgen tasks []).
Qed.

(** [load_model] writes the cache at its own key only. *)
Lemma load_model_frame w t s r s' t' :
  load_model w t s = (r, s') -> t' <> t ->
  models_cache s' !! t' = models_cache s !! t'.
Proof.
  intros H Hne. apply load_model_cases in H as (_ & _ & H).
  destruct H as [(m & _ & _ & ->)|[(_ & _ & _ & ->)|(_ & k & n & c & _ & H)]];
    [done..|].
  cbv zeta in H.
  destruct H as [(_ & _ & -> & _)|(_ & _ & [(_ & _ & -> & _)|[(_ & _ & -> & _)|H]])];
    [done..|].
  destruct H as (sd & _ & _ & _ & -> & _). by rewrite lookup_insert_ne.
Qed.

Lemma predict_and_explain_frame w img t s r s' t' :
  predict_and_explain w img t s = (r, s') -> t' <> t ->
  models_cache s' !! t' = models_cache s !! t'.
Proof.
  intros H Hne.
  apply predict_and_explain_cases in H as (rl & sl & Hl & _ & -> & _).
  eauto using load_model_frame.
Qed.

Lemma predict_and_explain_dir w img t s r s' :
  predict_and_explain w img t s = (r, s') ->
  checkpoint_dir s' = checkpoint_dir s /\ stdout s' = stdout s.
Proof.
  intros H.
  apply predict_and_explain_cases in H as (rl & sl & Hl & -> & _ & _ & -> & _).
  apply load_model_cases in Hl as (-> & -> & _). done.
Qed.

(** What [predict_and_explain] raises depends on the state only through
    the checkpoint directory and the cache slot of its own task. *)

Lemma task_exn_stable w img t s1 s2 :
  checkpoint_dir s1 = checkpoint_dir s2 ->
  models_cache s1 !! t = models_cache s2 !! t ->
  task_exn w img s1 t = task_exn w img s2 t.
Proof.
  intros Hd Hc.
  unfold task_exn, predict_and_explain, load_model, FoundationalCVModel_new,
    torch_load, load_state_dict, Image_open, gradcam_and_save.
  unfold_M. simpl. rewrite Hc.
  destruct (models_cache s2 !! t) as [m|]; simpl.
  - destruct (TASKS_get t) as [[[k n] c]|]; simpl; [|done].
    destruct (image_at w img) as [| |px]; simpl; try done.
    destruct (decode w k (forward m px)) as [[res idx]|e]; simpl; [|done].
    by destruct (gradcam_failure w t).
  - destruct (TASKS_get t) as [[[k n] c]|]; simpl; [|done].
    destruct (backbone_available w); simpl; [|done].
    rewrite Hd.
    destruct (checkpoint w _) as [| |sd] eqn:Hk; simpl; rewrite ?Hk; simpl;
      try done.
    destruct (decide (sd_out_features sd = n)) as [Hn|Hn]; simpl; [|done].
    destruct (image_at w img) as [| |px]; simpl; try done.
    unfold forward; simpl.
    destruct (decode w k _) as [[res idx]|e]; simpl; [|done].
    by destruct (gradcam_failure w t).
Qed.

Lemma task_succeeds_by_exn w img s t :
  task_succeeds w img s t =
  match task_exn w img s t with None => true | Some _ => false end.
Proof.
  unfold task_succeeds, task_exn.
  by destruct (predict_and_explain w img t s).1.
Qed.

(** Facts on insertion-ordered dicts. *)
Lemma dict_keys_set_new {V} (k : string) (v : V) d :
  k ∉ dict_keys d -> dict_keys (dict_set k v d) = dict_keys d ++ [k].
Proof.
  unfold dict_keys. induction d as [|[k' v'] d IH]; simpl; [done|].
  intros Hn. apply not_elem_of_cons in Hn as [Hne Hn].
  destruct (decide (k = k')); [done|]. rewrite !fmap_cons. simpl.
  f_equal. by apply IH.
Qed.

Lemma dict_set_Forall {V} (P : string * V -> Prop) k v d :
  P (k, v) -> Forall P d -> Forall P (dict_set k v d).
Proof.
  intros Hk. induction 1 as [|[k' v'] d HP Hd IH]; simpl.
  - by constructor.
  - destruct (decide (k = k')); constructor; auto.
Qed.

(** The profile loop from an empty mapping: it returns, its keys are the
    tasks whose [predict_and_explain] succeeds (judged in the state the
    loop starts from), in the order visited, and it prints one line per
    omitted task. *)
Lemma profile_loop_spec w img tasks s :
  NoDup tasks ->
  exists res s', profile_loop w img tasks [] s = (Ok res, s') /\
    dict_keys res = filter (fun t => task_succeeds w img s t = true) tasks /\
    stdout s' = stdout s ++ omap (report w img s) tasks /\
    checkpoint_dir s' = checkpoint_dir s /\
    (forall t, t ∉ tasks -> models_cache s' !! t = models_cache s !! t).
Proof.
  intros Hnd.
  apply (profile_loop_rule w img
    (fun done res s1 =>
       dict_keys res = filter (fun t => task_succeeds w img s t = true) done /\
       stdout s1 = stdout s ++ omap (report w img s) done /\
       checkpoint_dir s1 = checkpoint_dir s /\
       (forall t, t ∉ done -> models_cache s1 !! t = models_cache s !! t))).
  2:{ simpl. rewrite app_nil_r. done. }
  intros done t rest acc s1 r s' Heq (Hk & Ho & Hd & Hf) Hstep.
  assert (Ht : t ∉ done).
  { rewrite Heq in Hnd. apply NoDup_app in Hnd as (_ & Hnd & _).
    intros Hin. apply (Hnd _ Hin). left. }
  destruct (profile_step_cases w img t acc s1)
    as (r0 & s0 & Hs0 & rp & sp & Hp & Hd' & Hc' & _ & _ & Hr).
  rewrite Hstep in Hs0. injection Hs0 as <- <-.
  pose proof (task_exn_stable w img t s1 s Hd (Hf t Ht)) as Hst.
  pose proof (predict_and_explain_dir _ _ _ _ _ _ Hp) as [Hdp Hop].
  assert (Hframe : forall t', t' ∉ done ++ [t] ->
            models_cache s' !! t' = models_cache s !! t').
  { intros t' Hn. apply not_elem_of_app in Hn as [Hn1 Hn2].
    rewrite Hc'. rewrite (predict_and_explain_frame _ _ _ _ _ _ t' Hp).
    - by apply Hf.
    - intros ->. apply Hn2. left. }
  assert (Hex : task_exn w img s t =
                match rp with Ok _ => None | Raise e => Some e end).
  { rewrite <- Hst. unfold task_exn. by rewrite Hp. }
  rewrite filter_app, omap_app, filter_cons, filter_nil. simpl.
  rewrite task_succeeds_by_exn. unfold report at 2. rewrite Hex.
  destruct rp as [[pred map_path]|e]; simpl.
  - destruct Hr as [-> ->]. split_and!; try congruence.
    + rewrite dict_keys_set_new; [by rewrite Hk|].
      rewrite Hk. intros Hin. apply list_elem_of_filter in Hin as [_ Hin]. done.
    + rewrite app_nil_r. congruence.
    + done.
  - destruct Hr as [-> Hout]. split_and!; try congruence.
    + by rewrite app_nil_r.
    + rewrite Hout, Hop, Ho. by rewrite <- app_assoc.
    + done.
Qed.

(* ===================================================================== *)
(** ** The cache invariant                                                *)
(* ===================================================================== *)

Lemma cache_wf_ext w s s' :
  models_cache s' = models_cache s -> next_object s' = next_object s ->
  checkpoint_dir s' = checkpoint_dir s ->
  cache_wf w s -> cache_wf w s'.
Proof. unfold cache_wf. intros -> -> ->. done. Qed.

Lemma cache_wf_init w dir : cache_wf w (api_init dir).
Proof. intros t m H. simpl in H. by rewrite lookup_empty in H. Qed.

Lemma load_model_wf w t s r s' :
  cache_wf w s -> load_model w t s = (r, s') -> cache_wf w s'.
Proof.
  intros Hwf H. apply load_model_cases in H as (Hdir & _ & H).
  destruct H as [(m & _ & _ & ->)|[(_ & _ & _ & ->)|(Hnone & k & n & c & Hreg & H)]];
    [done..|].
  cbv zeta in H.
  destruct H as [(_ & _ & Hc & Hn & _)|(_ & Hn & H)].
  { by apply (cache_wf_ext w s). }
  assert (Hgrow : models_cache s' = models_cache s -> cache_wf w s').
  { intros Hc t0 m0 H0. rewrite Hc in H0. rewrite Hc, Hn, Hdir.
    destruct (Hwf t0 m0 H0) as (? & ? & ? & ?). split_and!; auto with lia. }
  destruct H as [(_ & _ & Hc & _)|[(_ & _ & Hc & _)|(sd & Hsd & _ & _ & Hc & _)]];
    [auto..|].
  intros t0 m0. rewrite Hc, Hn, Hdir. intros H0.
  destruct (decide (t0 = t)) as [->|Hne].
  - rewrite lookup_insert_eq in H0. injection H0 as <-. simpl.
    split_and!; [eauto | lia | | done].
    intros t' m' Hne'. rewrite lookup_insert_ne by done. intros H'.
    destruct (Hwf t' m' H') as (_ & Hlt & _). lia.
  - rewrite lookup_insert_ne in H0 by done.
    destruct (Hwf t0 m0 H0) as (Hr0 & Hlt & Hinj & Hck).
    split_and!; [done | lia | | done].
    intros t' m' Hne'. destruct (decide (t' = t)) as [->|Hne2].
    + rewrite lookup_insert_eq. intros [= <-]. simpl. lia.
    + rewrite lookup_insert_ne by done. by apply Hinj.
Qed.

Lemma predict_and_explain_wf w img t s r s' :
  cache_wf w s -> predict_and_explain w img t s = (r, s') -> cache_wf w s'.
Proof.
  intros Hwf H.
  apply predict_and_explain_cases in H as (rl & sl & Hl & Hd & Hc & Hn & _).
  eapply cache_wf_ext; [done..|]. eauto using load_model_wf.
Qed.

Lemma profile_loop_wf w img tasks acc s r s' :
  cache_wf w s -> profile_loop w img tasks acc s = (r, s') -> cache_wf w s'.
Proof.
  intros Hwf H.
  destruct (profile_loop_rule w img (fun _ _ s1 => cache_wf w s1) tasks)
    with (acc := acc) (s := s) as (res & s1 & H1 & Hwf1);
    [|done|rewrite H in H1; by injection H1 as -> ->].
  intros done t rest acc0 s0 r0 s0' _ Hwf0 Hstep.
  destruct (profile_step_cases w img t acc0 s0)
    as (r1 & s1 & Hs1 & rp & sp & Hp & Hd & Hc & Hn & _).
  rewrite Hstep in Hs1. injection Hs1 as <- <-.
  eapply cache_wf_ext; [done..|]. eauto using predict_and_explain_wf.
Qed.

Lemma preload_loop_wf w tasks s :
  cache_wf w s -> cache_wf w (preload_loop w tasks s).2.
Proof.
  revert s. induction tasks as [|t rest IH]; intros s Hwf; [done|].
  simpl. unfold bind at 1, try_except, bind at 1.
  destruct (load_model w t s) as [[m|e] s1] eqn:Hl; unfold ret;
    apply IH; eauto using load_model_wf.
Qed.

Lemma reachable_wf w s : reachable w s -> cache_wf w s.
Proof.
  induction 1 as [dir|s c _ IH]; [apply cache_wf_init|].
  destruct c as [t| |img t|img]; simpl.
  - destruct (load_model w t s) eqn:H. eauto using load_model_wf.
  - by apply preload_loop_wf.
  - destruct (predict_and_explain w img t s) eqn:H.
    eauto using predict_and_explain_wf.
  - unfold run_full_profile.
    destruct (profile_loop w img TASKS_keys [] s) eqn:H.
    eauto using profile_loop_wf.
Qed.

Lemma task_exn_load_failure w img s t e :
  load_failure w s t = Some e -> task_exn w img s t = Some e.
Proof.
  unfold load_failure, task_exn, predict_and_explain, bind.
  destruct (load_model w t s) as [[m|e'] s1]; simpl; congruence.
Qed.

Lemma backbone_loads_app s s' evs :
  io_log s' = io_log s ++ evs ->
  backbone_loads s' =
  backbone_loads s + length (filter (fun ev => ev = IoFromPretrained) evs).
Proof.
  unfold backbone_loads. intros ->. by rewrite filter_app, length_app.
Qed.

Lemma checkpoint_reads_app s s' evs :
  io_log s' = io_log s ++ evs ->
  checkpoint_reads s' =
  checkpoint_reads s + length (filter (fun ev => is_torch_load ev = true) evs).
Proof.
  unfold checkpoint_reads. intros ->. by rewrite filter_app, length_app.
Qed.

Lemma saved_figs_app s s' evs :
  io_log s' = io_log s ++ evs ->
  saved_figs s' = saved_figs s ++ filter (fun ev => is_savefig ev = true) evs.
Proof. unfold saved_figs. intros ->. by rewrite filter_app. Qed.

(* ===================================================================== *)
(** ** Model lifecycle: [load_model]                                      *)
(* ===================================================================== *)

(** C3.  A first [load_model] of a task that succeeds from a cache miss
    reads one checkpoint; a second call returns the very same model
    (same backbone object, same head) and leaves the whole state, I/O
    log included, as the first call left it.  So two calls read exactly
    one checkpoint. *)
Theorem load_model_twice w t s m s1 :
  models_cache s !! t = None ->
  load_model w t s = (Ok m, s1) ->
  load_model w t s1 = (Ok m, s1) /\
  checkpoint_reads (load_model w t s1).2 = S (checkpoint_reads s).
Proof.
  intros Hmiss H.
  pose proof (load_model_cases _ _ _ _ _ H) as (_ & _ & Hc).
  destruct Hc as [(m' & Hhit & _)|[(_ & _ & [=] & _)|(_ & k & n & c & _ & Hc)]];
    [congruence|].
  cbv zeta in Hc.
  destruct Hc as [(_ & [=] & _)|(_ & _ & [(_ & [=] & _)|[([=] & _)|Hc]])].
  destruct Hc as (sd & _ & _ & [= ->] & Hcache & Hio).
  set (m := {| backbone := next_object s; num_classes := n; weights := sd |}) in *.
  assert (Hhit : load_model w t s1 = (Ok m, s1)).
  { apply load_model_hit. rewrite Hcache. apply lookup_insert_eq. }
  rewrite Hhit. split; [done|]. simpl.
  rewrite (checkpoint_reads_app _ _ _ Hio). simpl. lia.
Qed.

Lemma load_model_twice_witness :
  load_model (demo_world ImgMissing) "Age" age_loaded = (Ok age_model, age_loaded) /\
  checkpoint_reads (load_model (demo_world ImgMissing) "Age" age_loaded).2 = 1.
Proof.
  apply (load_model_twice (demo_world ImgMissing) "Age" (api_init "ckpt")
           age_model age_loaded).
  - reflexivity.
  - vm_compute. reflexivity.
Defined.

(** C9.  In every state the API object can reach, [load_model] on a name
    that is not in [Config.TASKS] raises [ValueError] (the spec's
    InvalidTaskError) and so does [predict_and_explain]; neither changes
    the state, so nothing is inserted into the cache. *)
Theorem unknown_task_rejected w img t s :
  reachable w s ->
  TASKS_get t = None ->
  load_model w t s = (Raise ValueError, s) /\
  predict_and_explain w img t s = (Raise ValueError, s).
Proof.
  intros Hr Hunk.
  assert (Hmiss : models_cache s !! t = None).
  { destruct (models_cache s !! t) as [m|] eqn:Hm; [|done].
    destruct (reachable_wf _ _ Hr t m Hm) as ((k & c & Hreg) & _). congruence. }
  assert (Hl : load_model w t s = (Raise ValueError, s)).
  { unfold load_model. unfold_M. by rewrite Hmiss, Hunk. }
  split; [done|]. unfold predict_and_explain, bind. by rewrite Hl.
Qed.

Lemma unknown_task_rejected_witness :
  load_model (demo_world ImgMissing) "Glaucoma" (api_init "ckpt")
    = (Raise ValueError, api_init "ckpt") /\
  predict_and_explain (demo_world ImgMissing) "scan.jpg" "Glaucoma" (api_init "ckpt")
    = (Raise ValueError, api_init "ckpt").
Proof.
  apply (unknown_task_rejected (demo_world ImgMissing) "scan.jpg" "Glaucoma").
  - apply reach_init.
  - reflexivity.
Defined.

(** C2 (as the code has it).  No backbone is fetched when the API object
    is created.  A [load_model] call fetches the pretrained backbone
    once more exactly when it misses the cache on a registered task, and
    none otherwise; and in every reachable state the models cached for
    two different tasks wrap two different backbone objects. *)
Theorem backbone_per_cached_model w s :
  reachable w s ->
  (forall dir, backbone_loads (api_init dir) = 0) /\
  (forall t,
     backbone_loads (load_model w t s).2 =
     backbone_loads s +
     match models_cache s !! t, TASKS_get t with
     | None, Some _ => 1
     | _, _ => 0
     end) /\
  (forall t1 t2 m1 m2,
     t1 <> t2 ->
     models_cache s !! t1 = Some m1 ->
     models_cache s !! t2 = Some m2 ->
     backbone m1 <> backbone m2).
Proof.
  intros Hr. split; [done|]. split.
  - intros t. destruct (load_model w t s) as [r s'] eqn:H.
    apply load_model_cases in H as (_ & _ & H). simpl.
    destruct H as [(m & -> & _ & ->)|[(-> & -> & _ & ->)|(-> & k & n & c & -> & H)]];
      [lia..|].
    cbv zeta in H.
    destruct H as [(_ & _ & _ & _ & Hio)|(_ & _ & [(_ & _ & _ & Hio)|[(_ & _ & _ & Hio)|H]])];
      [by rewrite (backbone_loads_app _ _ _ Hio)..|].
    destruct H as (sd & _ & _ & _ & _ & Hio).
    by rewrite (backbone_loads_app _ _ _ Hio).
  - intros t1 t2 m1 m2 Hne H1 H2.
    destruct (reachable_wf _ _ Hr t2 m2 H2) as (_ & _ & Hinj & _).
    intros Heq. by apply (Hinj t1 m1).
Qed.

Lemma backbone_per_cached_model_witness :
  backbone_loads
    (load_model (demo_world ImgMissing) "Age" (api_init "ckpt")).2 = 1.
Proof.
  destruct (backbone_per_cached_model (demo_world ImgMissing) (api_init "ckpt")
              (reach_init _ _)) as (_ & H & _).
  exact (H "Age").
Defined.

(** C2 (as stated) fails: after loading [Age] and then [Gender] into a
    fresh API object the backbone has been fetched twice and the two
    cached models wrap different backbone objects. *)
Lemma backbone_not_shared :
  backbone_loads age_gender_loaded = 2 /\
  backbone <$> models_cache age_gender_loaded !! "Age" = Some 0 /\
  backbone <$> models_cache age_gender_loaded !! "Gender" = Some 1 /\
  ~ (backbone_loads age_gender_loaded <= 1) /\
  ~ (forall t1 t2 m1 m2,
       models_cache age_gender_loaded !! t1 = Some m1 ->
       models_cache age_gender_loaded !! t2 = Some m2 ->
       backbone m1 = backbone m2).
Proof.
  set (s2 := age_gender_loaded).
  assert (H0 : backbone_loads s2 = 2) by (vm_compute; reflexivity).
  assert (H1 : models_cache s2 !! "Age"
               = Some {| backbone := 0; num_classes := 1; weights := zero_head 1 |})
    by (vm_compute; reflexivity).
  assert (H2 : models_cache s2 !! "Gender"
               = Some {| backbone := 1; num_classes := 2; weights := zero_head 2 |})
    by (vm_compute; reflexivity).
  split_and!.
  - done.
  - by rewrite H1.
  - by rewrite H2.
  - lia.
  - intros H. specialize (H _ _ _ _ H1 H2). discriminate.
Qed.

(* ===================================================================== *)
(** ** The profile orchestrator: [run_full_profile]                       *)
(* ===================================================================== *)

(** Without a decodable image every task fails: with the exception of
    its own [load_model] if that fails, else with the one of [Image.open]. *)
Lemma task_exn_no_image w img s t e0 :
  (image_at w img = ImgMissing /\ e0 = FileNotFoundError) \/
  (image_at w img = ImgCorrupt /\ e0 = UnidentifiedImageError) ->
  t ∈ TASKS_keys ->
  task_exn w img s t =
  Some (match load_failure w s t with Some e => e | None => e0 end).
Proof.
  intros Himg Hreg. apply TASKS_get_keys in Hreg as [[[k n] c] Hreg].
  unfold task_exn, load_failure, predict_and_explain, bind at 1.
  destruct (load_model w t s) as [[m|e] s1]; simpl; [|done].
  rewrite Hreg. unfold Image_open. unfold_M. simpl.
  by destruct Himg as [[-> ->]|[-> ->]].
Qed.

Lemma load_model_saved_figs w t s r s' :
  load_model w t s = (r, s') -> saved_figs s' = saved_figs s.
Proof.
  intros H. apply load_model_cases in H as (_ & _ & H).
  destruct H as [(m & _ & _ & ->)|[(_ & _ & _ & ->)|(_ & k & n & c & _ & H)]];
    [done..|].
  cbv zeta in H.
  destruct H as [(_ & _ & _ & _ & Hio)|(_ & _ & [(_ & _ & _ & Hio)|[(_ & _ & _ & Hio)|H]])];
    [rewrite (saved_figs_app _ _ _ Hio); simpl; by rewrite app_nil_r..|].
  destruct H as (sd & _ & _ & _ & _ & Hio).
  rewrite (saved_figs_app _ _ _ Hio). simpl. by rewrite app_nil_r.
Qed.

(** A call of [predict_and_explain] that raises has written no heatmap. *)
Lemma predict_and_explain_raise_saved_figs w img t s e s' :
  predict_and_explain w img t s = (Raise e, s') -> saved_figs s' = saved_figs s.
Proof.
  intros H.
  apply predict_and_explain_cases in H as (rl & sl & Hl & _ & _ & _ & _ & H).
  apply load_model_saved_figs in Hl. rewrite <- Hl. clear Hl.
  assert (Hopen : io_log s' = io_log sl ++ [IoImageOpen img] ->
                  saved_figs s' = saved_figs sl).
  { intros Hio. rewrite (saved_figs_app _ _ _ Hio). simpl. by rewrite app_nil_r. }
  destruct rl as [m|e']; [|by destruct H as [_ ->]].
  destruct (TASKS_get t) as [[[k n] c]|]; [|by destruct H as [_ ->]].
  destruct (image_at w img) as [| |px]; [by apply Hopen, H..|].
  destruct (decode w k (forward m px)) as [[res idx]|e']; [|by apply Hopen, H].
  destruct (gradcam_failure w t) as [e'|]; [by apply Hopen, H|].
  by destruct H as [[=] _].
Qed.

(** If no task succeeds, the profile loop writes no heatmap. *)
Lemma profile_loop_saved_figs w img tasks s :
  (forall t s1, t ∈ tasks -> task_succeeds w img s1 t = false) ->
  forall res s', profile_loop w img tasks [] s = (res, s') ->
  saved_figs s' = saved_figs s.
Proof.
  intros Hfail res s' H.
  destruct (profile_loop_rule w img
              (fun _ _ s1 => saved_figs s1 = saved_figs s) tasks)
    with (acc := @nil (string * list (string * pyval))) (s := s)
    as (res1 & s1 & H1 & Hinv); [|done|rewrite H in H1; by injection H1 as -> ->].
  intros done t rest acc s0 r s0' Heq Hinv Hstep.
  destruct (profile_step_cases w img t acc s0)
    as (r1 & s1 & Hs1 & rp & sp & Hp & _ & _ & _ & Hio & Hr).
  rewrite Hstep in Hs1. injection Hs1 as <- <-.
  assert (Hin : t ∈ tasks) by (rewrite Heq; set_solver).
  specialize (Hfail t s0 Hin). unfold task_succeeds in Hfail. rewrite Hp in Hfail.
  destruct rp as [[pred map_path]|e]; [done|].
  apply predict_and_explain_raise_saved_figs in Hp.
  unfold saved_figs in *. by rewrite Hio, Hp.
Qed.

Lemma omap_eq_map {A B} (f : A -> option B) (g : A -> B) (l : list A) :
  (forall x, x ∈ l -> f x = Some (g x)) -> omap f l = map g l.
Proof.
  induction l as [|x l IH]; intros H; [done|]. simpl.
  rewrite (H x) by left. f_equal. apply IH. intros y Hy. apply H. by right.
Qed.

Lemma filter_none {A} (P : A -> Prop) `{forall x, Decision (P x)} (l : list A) :
  (forall x, x ∈ l -> ~ P x) -> filter P l = [].
Proof.
  induction l as [|x l IH]; intros Hn; [done|].
  rewrite filter_cons, decide_False by (apply Hn; left).
  apply IH. intros y Hy. apply Hn. by right.
Qed.

(** C8.  [run_full_profile] returns a mapping whose keys, in iteration
    order, are exactly the registry's task names for which
    [predict_and_explain] succeeds, in registry order. *)
Theorem profile_keys_in_registry_order w img s :
  exists res s', run_full_profile w img s = (Ok res, s') /\
    dict_keys res = filter (fun t => task_succeeds w img s t = true) TASKS_keys.
Proof.
  destruct (profile_loop_spec w img TASKS_keys s TASKS_keys_NoDup)
    as (res & s' & H & Hk & _).
  by exists res, s'.
Qed.

(** C7.  Every item of the mapping returned by [run_full_profile] has a
    registered task name as key and, as value, an entry with both a
    prediction and an attention-map path. *)
Theorem profile_entries_full w img s :
  exists res s', run_full_profile w img s = (Ok res, s') /\ Forall full_entry res.
Proof.
  apply (profile_loop_rule w img (fun _ res _ => Forall full_entry res)).
  2:{ constructor. }
  intros done t rest acc s0 r s0' Heq Hinv Hstep.
  destruct (profile_step_cases w img t acc s0)
    as (r1 & s1 & Hs1 & rp & sp & Hp & _ & _ & _ & _ & Hr).
  rewrite Hstep in Hs1. injection Hs1 as <- <-.
  destruct rp as [[pred map_path]|e].
  - destruct Hr as [-> _]. apply dict_set_Forall; [|done].
    split; simpl; [rewrite Heq; set_solver | by exists pred, map_path].
  - by destruct Hr as [-> _].
Qed.

(** A run in which two of the ten checkpoints are present: the mapping
    has the two keys, in registry order, and the [Age] entry is complete. *)
Example profile_two_of_ten :
  match (run_full_profile (demo_world (ImgGood black_image)) "scan.jpg"
           (api_init "ckpt")).1 with
  | Ok res =>
      dict_keys res = ["Age"; "Gender"] /\
      dict_get "Age" res
        = Some [("prediction", PyPrediction (Scalar (Finite 0%R)));
                ("attention_map", PyStr "artifacts/gradcam_inference/scan_Age_cam.png")]
  | Raise _ => False
  end /\
  saved_figs (run_full_profile (demo_world (ImgGood black_image)) "scan.jpg"
                (api_init "ckpt")).2
    = [IoSaveFig "artifacts/gradcam_inference/scan_Age_cam.png";
       IoSaveFig "artifacts/gradcam_inference/scan_Gender_cam.png"].
Proof. vm_compute. repeat split. Qed.




(** C10 (as the code has it).  When no file exists at the image path
    ([Image.open] raises [FileNotFoundError]), [run_full_profile]
    returns the empty mapping and raises nothing, writes no heatmap, and
    prints one line per registry task, in registry order: the skip line
    "Model weights not found" for every task whose [load_model] succeeds
    or raises [FileNotFoundError], and the error line only for a task
    whose [load_model] itself fails otherwise. *)
Theorem missing_image_reported_as_skips w img s :
  image_at w img = ImgMissing ->
  exists s', run_full_profile w img s = (Ok [], s') /\
    saved_figs s' = saved_figs s /\
    stdout s' = stdout s ++ map (missing_image_line w s) TASKS_keys.
Proof.
  intros Himg.
  assert (Hex : forall t s1, t ∈ TASKS_keys ->
    task_exn w img s1 t =
    Some (match load_failure w s1 t with Some e => e | None => FileNotFoundError end)).
  { intros t s1 Ht. apply task_exn_no_image; auto. }
  destruct (profile_loop_spec w img TASKS_keys s TASKS_keys_NoDup)
    as (res & s' & H & Hkeys & Hout & _).
  rewrite filter_none in Hkeys.
  2:{ intros t Ht. rewrite task_succeeds_by_exn, Hex by done. done. }
  destruct res as [|item res]; [|done].
  exists s'. split; [done|]. split.
  - eapply profile_loop_saved_figs; [|exact H].
    intros t s1 Ht. rewrite task_succeeds_by_exn, Hex by done. done.
  - rewrite Hout. f_equal. apply omap_eq_map.
    intros t Ht. unfold report, missing_image_line. rewrite Hex by done.
    by destruct (load_failure w s t).
Qed.

Lemma missing_image_reported_as_skips_witness :
  exists s',
    run_full_profile (demo_world ImgMissing) "gone.jpg" (api_init "ckpt")
      = (Ok [], s') /\
    saved_figs s' = [] /\
    stdout s' = map PrintSkipping TASKS_keys.
Proof.
  destruct (missing_image_reported_as_skips (demo_world ImgMissing) "gone.jpg"
              (api_init "ckpt")) as (s' & H & Hf & Hout).
  - reflexivity.
  - exists s'. split; [exact H|]. split; [exact Hf|].
    rewrite Hout. vm_compute. reflexivity.
Defined.

(** C10 (as stated) fails: a missing image is not always reported as
    every task skipped.  With an unreadable [Age] checkpoint the run
    prints the error line for [Age]; where the backbone cannot be
    fetched it prints ten error lines and no skip line at all. *)
Lemma missing_image_not_all_skips :
  image_at (corrupt_checkpoint_world ImgMissing) "gone.jpg" = ImgMissing /\
  stdout (run_full_profile (corrupt_checkpoint_world ImgMissing) "gone.jpg"
            (api_init "ckpt")).2
    = PrintError "Age" RuntimeError :: map PrintSkipping (tail TASKS_keys) /\
  stdout (run_full_profile (corrupt_checkpoint_world ImgMissing) "gone.jpg"
            (api_init "ckpt")).2
    <> map PrintSkipping TASKS_keys /\
  stdout (run_full_profile (offline_world ImgMissing) "gone.jpg"
            (api_init "ckpt")).2
    = map (fun t => PrintError t OSError) TASKS_keys.
Proof.
  assert (H : stdout (run_full_profile (corrupt_checkpoint_world ImgMissing)
                        "gone.jpg" (api_init "ckpt")).2
              = PrintError "Age" RuntimeError :: map PrintSkipping (tail TASKS_keys))
    by (vm_compute; reflexivity).
  split_and!.
  - reflexivity.
  - exact H.
  - rewrite H. discriminate.
  - vm_compute. reflexivity.
Qed.

(** C1 (as the code has it).  [run_full_profile] returns normally on
    every input: no exception escapes it.  When the image file is
    missing or cannot be decoded, the mapping it returns is empty and no
    heatmap is written. *)
Theorem profile_never_raises w img s :
  exists res s', run_full_profile w img s = (Ok res, s') /\
    match image_at w img with
    | ImgGood _ => True
    | _ => res = [] /\ saved_figs s' = saved_figs s
    end.
Proof.
  destruct (profile_loop_spec w img TASKS_keys s TASKS_keys_NoDup)
    as (res & s' & H & Hkeys & _).
  exists res, s'. split; [done|].
  assert (Hbad : forall e0,
    (image_at w img = ImgMissing /\ e0 = FileNotFoundError) \/
    (image_at w img = ImgCorrupt /\ e0 = UnidentifiedImageError) ->
    res = [] /\ saved_figs s' = saved_figs s).
  { intros e0 Himg.
    assert (Hfail : forall t s1, t ∈ TASKS_keys -> task_succeeds w img s1 t = false).
    { intros t s1 Ht.
      by rewrite task_succeeds_by_exn, (task_exn_no_image w img s1 t e0). }
    split.
    - rewrite filter_none in Hkeys; [by destruct res|].
      intros t Ht. by rewrite Hfail.
    - eapply profile_loop_saved_figs; [exact Hfail|exact H]. }
  destruct (image_at w img) as [| |px]; eauto.
Qed.

(** C1 (as stated) fails: on a file that cannot be decoded,
    [run_full_profile] raises nothing and returns the empty mapping; the
    image is opened once per task whose model loads, not once up front. *)
Lemma corrupt_image_not_raised :
  image_at (demo_world ImgCorrupt) "scan.jpg" = ImgCorrupt /\
  corrupt_run.1 = Ok [] /\
  (forall e, corrupt_run.1 <> Raise e) /\
  length (filter (fun ev => ev = IoImageOpen "scan.jpg") (io_log corrupt_run.2)) = 2.
Proof.
  assert (H : corrupt_run.1 = Ok []) by (vm_compute; reflexivity).
  split_and!; [reflexivity | exact H | by rewrite H | vm_compute; reflexivity].
Qed.

(* ===================================================================== *)
(** ** Decoding a prediction                                              *)
(* ===================================================================== *)

(** The shapes that the registry allows: one output for the regression
    task, at least one for the others. *)
Lemma TASKS_get_shape t k n c :
  TASKS_get t = Some (k, n, c) ->
  (k = regression /\ n = 1) \/ (k <> regression /\ 0 < n).
Proof.
  unfold TASKS_get, TASKS. simpl.
  repeat (case_decide; [intros [= <- <- <-]; auto with lia|]). done.
Qed.

Lemma float_le_not_nan x y : float_le x y = true -> x <> NaN /\ y <> NaN.
Proof. by destruct x, y. Qed.

Lemma float_le_refl x : x <> NaN -> float_le x x = true.
Proof.
  destruct x as [r| | |]; simpl; try done.
  intros _. destruct (Rle_dec r r); [done|lra].
Qed.

Lemma float_le_trans x y z :
  float_le x y = true -> float_le y z = true -> float_le x z = true.
Proof.
  destruct x as [a| | |], y as [b| | |], z as [c| | |]; simpl; try done.
  destruct (Rle_dec a b), (Rle_dec b c), (Rle_dec a c); try done. lra.
Qed.

Lemma float_le_total x y :
  x <> NaN -> y <> NaN -> float_le x y = false -> float_le y x = true.
Proof.
  destruct x as [a| | |], y as [b| | |]; simpl; try done.
  intros _ _. destruct (Rle_dec a b), (Rle_dec b a); try done. lra.
Qed.

Lemma is_nan_false x : is_nan x = false -> x <> NaN.
Proof. by destruct x. Qed.

Lemma is_nan_true x : is_nan x = true -> x = NaN.
Proof. by destruct x. Qed.

(** [argmax_from] continues a scan: [pre] is the part already seen, none
    of it NaN, and [best_i] the position of its first maximum. *)
Lemma argmax_from_spec l : forall pre best_i best,
  pre !! best_i = Some best ->
  best <> NaN ->
  (forall y, y ∈ pre -> float_le y best = true) ->
  (forall j y, j < best_i -> pre !! j = Some y -> float_le best y = false) ->
  exists p, (pre ++ l) !! argmax_from best_i best (length pre) l = Some p /\
    (forall y, y ∈ pre ++ l -> p = NaN \/ float_le y p = true) /\
    (forall j y, j < argmax_from best_i best (length pre) l ->
       (pre ++ l) !! j = Some y -> y <> NaN /\ float_le p y = false).
Proof.
  induction l as [|x l IH]; intros pre best_i best Hb Hnn Hmax Hfirst; simpl.
  - rewrite app_nil_r. exists best. split_and!; [done|auto|].
    intros j y Hj Hy. split; [|by eauto].
    apply list_elem_of_lookup_2, Hmax, float_le_not_nan in Hy. tauto.
  - assert (Hlen : length (pre ++ [x]) = S (length pre))
      by (rewrite length_app; simpl; lia).
    assert (Hcons : pre ++ x :: l = (pre ++ [x]) ++ l) by (by rewrite <- app_assoc).
    destruct (float_le x best) eqn:Hle.
    + specialize (IH (pre ++ [x]) best_i best).
      rewrite Hlen, <- Hcons in IH. apply IH; [|done| |].
      * by apply lookup_app_l_Some.
      * intros y Hy. apply elem_of_app in Hy as [Hy|Hy]; [auto|].
        by apply list_elem_of_singleton in Hy as ->.
      * intros j y Hj Hy. apply (Hfirst j y Hj).
        apply lookup_lt_Some in Hb. by rewrite lookup_app_l in Hy by lia.
    + destruct (is_nan x) eqn:Hx.
      * apply is_nan_true in Hx as ->. exists NaN. split_and!.
        -- by rewrite lookup_app_r, Nat.sub_diag by lia.
        -- auto.
        -- intros j y Hj Hy. rewrite lookup_app_l in Hy by done. split; [|done].
           apply list_elem_of_lookup_2, Hmax, float_le_not_nan in Hy. tauto.
      * apply is_nan_false in Hx.
        assert (Hbx : float_le best x = true) by (by apply float_le_total).
        specialize (IH (pre ++ [x]) (length pre) x).
        rewrite Hlen, <- Hcons in IH. apply IH; [|done| |].
        -- by rewrite lookup_app_r, Nat.sub_diag by lia.
        -- intros y Hy. apply elem_of_app in Hy as [Hy|Hy].
           ++ eapply float_le_trans; eauto.
           ++ apply list_elem_of_singleton in Hy as ->. by apply float_le_refl.
        -- intros j y Hj Hy. rewrite lookup_app_l in Hy by done.
           apply list_elem_of_lookup_2, Hmax in Hy.
           destruct (float_le x y) eqn:Hxy; [|done].
           by rewrite (float_le_trans _ _ _ Hxy Hy) in Hle.
Qed.

(** [np.argmax] of a non-empty row: a valid index; the element there is
    NaN or no element exceeds it; every element before it is a number
    strictly below it (so it is the first NaN, or else the first
    maximum). *)
Lemma argmax_spec l :
  l <> [] ->
  exists a p, argmax l = Some a /\ l !! a = Some p /\
    (forall y, y ∈ l -> p = NaN \/ float_le y p = true) /\
    (forall j y, j < a -> l !! j = Some y -> y <> NaN /\ float_le p y = false).
Proof.
  destruct l as [|x l]; [done|]. intros _. simpl.
  destruct (is_nan x) eqn:Hx.
  - apply is_nan_true in Hx as ->. exists 0, NaN. split_and!; auto. lia.
  - apply is_nan_false in Hx.
    destruct (argmax_from_spec l [x] 0 x) as (p & Hp & Hmax & Hfirst).
    + done.
    + done.
    + intros y Hy. apply list_elem_of_singleton in Hy as ->. by apply float_le_refl.
    + intros j y Hj. lia.
    + simpl in *. eauto 10.
Qed.

(** The example softmax meets the contract. *)
Lemma exp_weight_nonneg x : (0 <= exp_weight x)%R.
Proof. destruct x as [r| | |]; simpl; try lra. pose proof (exp_pos r). lra. Qed.

Lemma exp_weight_sum_ge x l :
  x ∈ l -> (exp_weight x <= fold_right Rplus 0 (map exp_weight l))%R.
Proof.
  assert (Hnn : forall l', (0 <= fold_right Rplus 0 (map exp_weight l'))%R).
  { induction l' as [|y l' IH]; simpl; [lra|].
    pose proof (exp_weight_nonneg y). lra. }
  induction 1 as [x l|x y l _ IH]; simpl.
  - pose proof (Hnn l). lra.
  - pose proof (exp_weight_nonneg y). lra.
Qed.

Lemma exact_softmax_contract : softmax_contract exact_softmax.
Proof.
  intros l. unfold exact_softmax.
  destruct (softmax_defined l) eqn:Hdef.
  - split_and!.
    + by rewrite length_map.
    + intros p Hp. apply list_elem_of_fmap in Hp as (x & -> & Hx).
      right. eexists. split; [done|].
      apply andb_prop in Hdef as [_ Hex].
      apply existsb_exists in Hex as (z & Hz & Hfin).
      destruct z as [r| | |]; try done.
      apply list_elem_of_In in Hz.
      pose proof (exp_weight_sum_ge _ _ Hz) as Hzle. simpl in Hzle.
      pose proof (exp_pos r) as Hr.
      pose proof (exp_weight_sum_ge _ _ Hx) as Hxle.
      pose proof (exp_weight_nonneg x) as Hx0.
      set (S := fold_right Rplus 0%R (map exp_weight l)) in *.
      assert (HS : (0 < S)%R) by lra.
      split.
      * apply Rmult_le_pos; [done|]. apply Rlt_le, Rinv_0_lt_compat. done.
      * apply (Rmult_le_reg_r S); [done|].
        unfold Rdiv. rewrite Rmult_assoc, Rinv_l by lra. lra.
    + intros _. apply Forall_forall. intros p Hp.
      by apply list_elem_of_fmap in Hp as (x & -> & _).
  - split_and!.
    + by rewrite length_map.
    + intros p Hp. left. by apply list_elem_of_fmap in Hp as (x & -> & _).
    + intros Hfin. destruct l as [|x l]; [constructor|].
      exfalso. apply Forall_cons in Hfin as [Hx Hl].
      unfold softmax_defined in Hdef. simpl in Hdef.
      destruct x as [r| | |]; try done. simpl in Hdef.
      rewrite andb_true_r in Hdef.
      assert (Hall : forallb (fun x => match x with
                                       | Finite _ | NegInf => true
                                       | _ => false end) l = true).
      { apply forallb_forall. intros y Hy. apply list_elem_of_In in Hy.
        rewrite Forall_forall in Hl. specialize (Hl y Hy). by destruct y. }
      by rewrite Hall in Hdef.
Qed.

Lemma load_model_ok_cached w t s m s' :
  load_model w t s = (Ok m, s') -> models_cache s' !! t = Some m.
Proof.
  intros H. apply load_model_cases in H as (_ & _ & H).
  destruct H as [(m' & Hm & [= ->] & ->)|[(_ & _ & [=] & _)|(_ & k & n & c & _ & H)]];
    [done|].
  cbv zeta in H.
  destruct H as [(_ & [=] & _)|(_ & _ & [(_ & [=] & _)|[([=] & _)|H]])].
  destruct H as (sd & _ & _ & [= ->] & -> & _). apply lookup_insert_eq.
Qed.

(** C5 (as the code has it).  Whenever [predict_and_explain] returns, in
    a state the API object can reach and with a softmax that meets
    torch's contract, the prediction follows the kind of the task.  For
    the regression task it is the raw value of the model's single output
    unit on the image, as a scalar, whatever that value is (it is not
    checked for being finite).  For any other task it is a class and a
    probability: the class is below the output dimension, the
    probability is the softmax component at the class, it is NaN or a
    number in [0,1] and it is a number in [0,1] when the logits are
    finite, it is NaN or no component exceeds it, and every component
    before it is a number strictly below it. *)
Theorem prediction_follows_task_kind w img t s pred map_path s' :
  reachable w s ->
  softmax_contract (F_softmax w) ->
  predict_and_explain w img t s = (Ok (pred, map_path), s') ->
  exists kind n c model px,
    TASKS_get t = Some (kind, n, c) /\
    models_cache s' !! t = Some model /\
    num_classes model = n /\
    image_at w img = ImgGood px /\
    match kind with
    | regression => pred = Scalar (sd_logit (weights model) px 0)
    | _ =>
        exists cls p,
          pred = ClassProb cls p /\
          cls < n /\
          F_softmax w (forward model px) !! cls = Some p /\
          (p = NaN \/ exists r, p = Finite r /\ (0 <= r <= 1)%R) /\
          (Forall is_finite (forward model px) ->
           exists r, p = Finite r /\ (0 <= r <= 1)%R) /\
          (forall q, q ∈ F_softmax w (forward model px) ->
                     p = NaN \/ float_le q p = true) /\
          (forall j q, j < cls -> F_softmax w (forward model px) !! j = Some q ->
                       q <> NaN /\ float_le p q = false)
    end.
Proof.
  intros Hr Hsm Hp.
  apply predict_and_explain_cases in Hp as (rl & sl & Hl & _ & Hc & _ & _ & H).
  destruct rl as [m|e]; [|by destruct H as [[=] _]].
  pose proof (load_model_ok_cached _ _ _ _ _ Hl) as Hcached.
  assert (Hwf : cache_wf w sl) by eauto using load_model_wf, reachable_wf.
  destruct (Hwf t m Hcached) as ((k' & c' & Hreg') & _).
  destruct (TASKS_get t) as [[[k n] c]|] eqn:Hreg; [|done].
  injection Hreg' as Hk' Hn Hc'. subst k' c'.
  destruct (image_at w img) as [| |px] eqn:Himg; [by destruct H as [[=] _]..|].
  destruct (decode w k (forward m px)) as [[res idx]|e] eqn:Hdec;
    [|by destruct H as [[=] _]].
  destruct (gradcam_failure w t) as [e|]; [by destruct H as [[=] _]|].
  destruct H as [[= Hpred _] _]. symmetry in Hpred. subst res.
  exists k, n, c, m, px. rewrite Hc. split_and!; [done..|].
  assert (Hlen : length (forward m px) = n).
  { unfold forward. by rewrite length_map, length_seq. }
  destruct (TASKS_get_shape _ _ _ _ Hreg) as [[-> Hone]|[Hk Hpos]].
  { unfold decode, forward in Hdec. rewrite <- Hn, Hone in Hdec. simpl in Hdec.
    by injection Hdec as <- _. }
  assert (Hcls : exists cls p,
    pred = ClassProb cls p /\ cls < n /\
    F_softmax w (forward m px) !! cls = Some p /\
    (p = NaN \/ exists r, p = Finite r /\ (0 <= r <= 1)%R) /\
    (Forall is_finite (forward m px) -> exists r, p = Finite r /\ (0 <= r <= 1)%R) /\
    (forall q, q ∈ F_softmax w (forward m px) -> p = NaN \/ float_le q p = true) /\
    (forall j q, j < cls -> F_softmax w (forward m px) !! j = Some q ->
                 q <> NaN /\ float_le p q = false)).
  { destruct (Hsm (forward m px)) as (Hsl & Hrange & Hfin).
    destruct (argmax_spec (F_softmax w (forward m px)))
      as (a & p & Ha & Hpa & Hmax & Hfirst).
    { intros Hnil. apply (f_equal length) in Hnil.
      rewrite Hsl, Hlen in Hnil. simpl in Hnil. lia. }
    unfold decode in Hdec. rewrite decide_False in Hdec by done.
    rewrite Ha, nth_lookup, Hpa in Hdec. simpl in Hdec.
    injection Hdec as <- _.
    pose proof (list_elem_of_lookup_2 _ _ _ Hpa) as Hin.
    exists a, p. split_and!; try done.
    - apply lookup_lt_Some in Hpa. by rewrite Hsl, Hlen in Hpa.
    - by apply Hrange.
    - intros Hall. specialize (Hfin Hall). rewrite Forall_forall in Hfin.
      specialize (Hfin p Hin). destruct (Hrange p Hin) as [->|?]; done. }
  by destruct k.
Qed.

Lemma prediction_follows_task_kind_witness :
  exists model,
    models_cache
      (predict_and_explain (demo_world (ImgGood black_image)) "scan.jpg" "Age"
         (api_init "ckpt")).2 !! "Age" = Some model /\
    Scalar (Finite 0) = Scalar (sd_logit (weights model) black_image 0).
Proof.
  destruct (prediction_follows_task_kind (demo_world (ImgGood black_image))
              "scan.jpg" "Age" (api_init "ckpt") (Scalar (Finite 0))
              "artifacts/gradcam_inference/scan_Age_cam.png"
              (predict_and_explain (demo_world (ImgGood black_image)) "scan.jpg"
                 "Age" (api_init "ckpt")).2)
    as (kind & n & c & model & px & Hreg & Hm & _ & Himg & Hpred).
  - apply reach_init.
  - apply exact_softmax_contract.
  - vm_compute. reflexivity.
  - exists model. split; [exact Hm|].
    injection Hreg as <- _ _. injection Himg as <-. exact Hpred.
Defined.

(** C5 (as stated) fails: with checkpoints that load but whose heads do
    not output finite numbers, the regression result is +inf, which is
    not a finite scalar, and the probability of a classification result
    is NaN, which is not in [0,1]. *)
Lemma prediction_not_finite :
  softmax_contract (F_softmax nonfinite_world) /\
  (predict_and_explain nonfinite_world "scan.jpg" "Age" (api_init "ckpt")).1
    = Ok (Scalar PosInf, "artifacts/gradcam_inference/scan_Age_cam.png") /\
  ~ is_finite PosInf /\
  (predict_and_explain nonfinite_world "scan.jpg" "Gender" (api_init "ckpt")).1
    = Ok (ClassProb 0 NaN, "artifacts/gradcam_inference/scan_Gender_cam.png") /\
  ~ (exists r, NaN = Finite r /\ (0 <= r <= 1)%R).
Proof.
  split_and!.
  - apply exact_softmax_contract.
  - vm_compute. reflexivity.
  - intros [].
  - vm_compute. reflexivity.
  - intros (r & [=] & _).
Qed.

(* ===================================================================== *)
(** ** The token-to-grid transform                                        *)
(* ===================================================================== *)

Lemma grid_index_split b h w c H W C :
  h < H -> w < W -> c < C ->
  let flat := ((b * H + h) * W + w) * C + c in
  flat / (H * W * C) = b /\
  (flat / C) mod (H * W) = h * W + w /\
  flat mod C = c.
Proof.
  intros Hh Hw Hc flat.
  assert (Hrow : h * W + w < H * W) by nia.
  assert (Hdiv : flat / C = b * (H * W) + (h * W + w)).
  { symmetry. apply (Nat.div_unique _ _ _ c); [done|]. unfold flat. nia. }
  split_and!.
  - symmetry. apply (Nat.div_unique _ _ _ ((h * W + w) * C + c)); [nia|].
    unfold flat. nia.
  - rewrite Hdiv. symmetry.
    apply (Nat.mod_unique _ _ b); [done|]. nia.
  - symmetry. apply (Nat.mod_unique _ _ ((b * H + h) * W + w)); [done|].
    unfold flat. nia.
Qed.

Lemma Z_of_nat_not_below (n : nat) :
  (Z.of_nat n <? -1)%Z = false /\ (Z.of_nat n =? -1)%Z = false.
Proof.
  split.
  - apply Z.ltb_ge. lia.
  - apply Z.eqb_neq. lia.
Qed.

(** Size inference on the shape that [reshape_transform_vit] requests,
    for the three ways its two parameters can be given validly. *)
Lemma infer_size_plain (B C H W numel : nat) :
  Vit.infer_size [Z.of_nat B; Z.of_nat H; Z.of_nat W; Z.of_nat C] numel =
  if Nat.eqb numel (B * (H * (W * (C * 1)))) then Ok [B; H; W; C]
  else Raise RuntimeError.
Proof.
  unfold Vit.infer_size. simpl.
  destruct (Z_of_nat_not_below B) as [-> ->], (Z_of_nat_not_below H) as [-> ->],
    (Z_of_nat_not_below W) as [-> ->], (Z_of_nat_not_below C) as [-> ->].
  simpl. by rewrite !Nat2Z.id.
Qed.

Lemma infer_size_rows (B C W numel : nat) :
  Vit.infer_size [Z.of_nat B; (-1)%Z; Z.of_nat W; Z.of_nat C] numel =
  if negb (Nat.eqb (B * (W * (C * 1))) 0) && Nat.eqb (numel mod (B * (W * (C * 1)))) 0
  then Ok [B; numel / (B * (W * (C * 1))); W; C]
  else Raise RuntimeError.
Proof.
  unfold Vit.infer_size. simpl.
  destruct (Z_of_nat_not_below B) as [-> ->],
    (Z_of_nat_not_below W) as [-> ->], (Z_of_nat_not_below C) as [-> ->].
  simpl. by rewrite !Nat2Z.id.
Qed.

Lemma infer_size_cols (B C H numel : nat) :
  Vit.infer_size [Z.of_nat B; Z.of_nat H; (-1)%Z; Z.of_nat C] numel =
  if negb (Nat.eqb (B * (H * (C * 1))) 0) && Nat.eqb (numel mod (B * (H * (C * 1)))) 0
  then Ok [B; H; numel / (B * (H * (C * 1))); C]
  else Raise RuntimeError.
Proof.
  unfold Vit.infer_size. simpl.
  destruct (Z_of_nat_not_below B) as [-> ->],
    (Z_of_nat_not_below H) as [-> ->], (Z_of_nat_not_below C) as [-> ->].
  simpl. by rewrite !Nat2Z.id.
Qed.

Lemma scaled_div_mod (B C W T : nat) :
  0 < B -> 0 < C -> 0 < W ->
  (B * T * C) mod (B * (W * (C * 1))) = B * (T mod W) * C /\
  (B * T * C) / (B * (W * (C * 1))) = T / W.
Proof.
  intros HB HC HW.
  pose proof (Nat.div_mod T W ltac:(lia)) as Hdm.
  pose proof (Nat.mod_upper_bound T W ltac:(lia)) as Hlt.
  split; symmetry.
  - apply (Nat.mod_unique _ _ (T / W)); nia.
  - apply (Nat.div_unique _ _ _ (B * (T mod W) * C)); nia.
Qed.

(** The view with [rows * cols] patch tokens, transposed twice, is the
    grid. *)
Lemma view_is_grid {A} (tensor : Vit.tensor3 A) (rows cols : nat) :
  Vit.size1 tensor - 1 = rows * cols ->
  Vit.is_grid_of tensor rows cols
    (Ok (Vit.transpose_1_2 (Vit.transpose_2_3
           (Vit.view4 (Vit.slice_from_1 tensor)
                      (Vit.size0 tensor) rows cols (Vit.size2 tensor))))).
Proof.
  intros Htok. eexists. split; [done|]. split; [done|].
  intros b c h w Hb Hc Hh Hw. simpl. rewrite Htok.
  destruct (grid_index_split b h w c rows cols (Vit.size2 tensor) Hh Hw Hc)
    as (-> & -> & ->).
  done.
Qed.

(** The transform on parameters given as natural numbers. *)
Lemma reshape_transform_vit_plain {A} (tensor : Vit.tensor3 A) (H W : nat) :
  Vit.reshape_transform_vit tensor (Z.of_nat H) (Z.of_nat W) =
  if Nat.eqb (Vit.numel3 (Vit.slice_from_1 tensor))
             (Vit.size0 tensor * (H * (W * (Vit.size2 tensor * 1))))
  then Ok (Vit.transpose_1_2 (Vit.transpose_2_3
             (Vit.view4 (Vit.slice_from_1 tensor)
                        (Vit.size0 tensor) H W (Vit.size2 tensor))))
  else Raise RuntimeError.
Proof.
  unfold Vit.reshape_transform_vit, Vit.reshape4.
  rewrite infer_size_plain. by destruct (Nat.eqb _ _).
Qed.

(** C6 (as the code has it).  The transform drops the first token and
    lays the remaining ones out as a grid transposed to (batch, channel,
    rows, columns), the cell (h, w) holding token 1 + h*columns + w.
    The grid size comes from the parameters [height] and [width] (14 and
    14 by default), not from the token count: for a tensor with at least
    one batch and one channel, with both parameters non-negative the
    call succeeds exactly when the remaining tokens number
    [height * width] and raises otherwise.  Only a parameter passed as
    -1 is computed from the token count by torch's [reshape], provided
    the other parameter is positive and divides the count.  Any other
    combination raises. *)
Theorem reshape_transform_vit_spec {A} (tensor : Vit.tensor3 A) (height width : Z) :
  0 < Vit.size0 tensor -> 0 < Vit.size2 tensor ->
  ((0 <= height)%Z -> (0 <= width)%Z ->
   if decide (Z.of_nat (Vit.size1 tensor - 1) = (height * width)%Z)
   then Vit.is_grid_of tensor (Z.to_nat height) (Z.to_nat width)
          (Vit.reshape_transform_vit tensor height width)
   else Vit.reshape_transform_vit tensor height width = Raise RuntimeError) /\
  (height = (-1)%Z -> (0 < width)%Z ->
   if decide ((Vit.size1 tensor - 1) mod Z.to_nat width = 0)
   then Vit.is_grid_of tensor ((Vit.size1 tensor - 1) / Z.to_nat width)
          (Z.to_nat width) (Vit.reshape_transform_vit tensor height width)
   else Vit.reshape_transform_vit tensor height width = Raise RuntimeError) /\
  (width = (-1)%Z -> (0 < height)%Z ->
   if decide ((Vit.size1 tensor - 1) mod Z.to_nat height = 0)
   then Vit.is_grid_of tensor (Z.to_nat height)
          ((Vit.size1 tensor - 1) / Z.to_nat height)
          (Vit.reshape_transform_vit tensor height width)
   else Vit.reshape_transform_vit tensor height width = Raise RuntimeError) /\
  ((height < -1)%Z \/ (width < -1)%Z \/
   (height = (-1)%Z /\ (width <= 0)%Z) \/ (width = (-1)%Z /\ (height <= 0)%Z) ->
   Vit.reshape_transform_vit tensor height width = Raise RuntimeError).
Proof.
  intros HB HC.
  set (T := Vit.size1 tensor - 1).
  assert (Hnumel : Vit.numel3 (Vit.slice_from_1 tensor)
                   = Vit.size0 tensor * T * Vit.size2 tensor) by done.
  split_and!.
  - intros Hh Hw.
    assert (Hh' : height = Z.of_nat (Z.to_nat height)) by lia.
    assert (Hw' : width = Z.of_nat (Z.to_nat width)) by lia.
    set (H := Z.to_nat height) in *. set (W := Z.to_nat width) in *.
    clearbody H W. subst height width.
    rewrite ?Nat2Z.id, reshape_transform_vit_plain, Hnumel.
    case_decide as Htok.
    + assert (HT : T = H * W) by lia.
      rewrite (proj2 (Nat.eqb_eq _ _)) by nia. by apply view_is_grid.
    + rewrite (proj2 (Nat.eqb_neq _ _)); [done|]. nia.
  - intros -> Hw.
    assert (Hw' : width = Z.of_nat (Z.to_nat width)) by lia.
    set (W := Z.to_nat width) in *. assert (HW : 0 < W) by lia.
    clearbody W. subst width. rewrite ?Nat2Z.id.
    unfold Vit.reshape_transform_vit, Vit.reshape4.
    rewrite infer_size_rows, Hnumel.
    destruct (scaled_div_mod (Vit.size0 tensor) (Vit.size2 tensor) W T HB HC HW)
      as [-> ->].
    rewrite (proj2 (Nat.eqb_neq _ 0)) by nia. simpl.
    case_decide as Hdiv.
    + rewrite Hdiv, (proj2 (Nat.eqb_eq _ _)) by lia.
      apply view_is_grid. fold T.
      pose proof (Nat.div_mod T W ltac:(lia)). lia.
    + rewrite (proj2 (Nat.eqb_neq _ _)); [done|]. nia.
  - intros -> Hh.
    assert (Hh' : height = Z.of_nat (Z.to_nat height)) by lia.
    set (H := Z.to_nat height) in *. assert (HH : 0 < H) by lia.
    clearbody H. subst height. rewrite ?Nat2Z.id.
    unfold Vit.reshape_transform_vit, Vit.reshape4.
    rewrite infer_size_cols, Hnumel.
    destruct (scaled_div_mod (Vit.size0 tensor) (Vit.size2 tensor) H T HB HC HH)
      as [-> ->].
    rewrite (proj2 (Nat.eqb_neq _ 0)) by nia. simpl.
    case_decide as Hdiv.
    + rewrite Hdiv, (proj2 (Nat.eqb_eq _ _)) by lia.
      apply view_is_grid. fold T.
      pose proof (Nat.div_mod T H ltac:(lia)). lia.
    + rewrite (proj2 (Nat.eqb_neq _ _)); [done|]. nia.
  - intros Hbad.
    unfold Vit.reshape_transform_vit, Vit.reshape4, Vit.infer_size. simpl.
    destruct (Z_of_nat_not_below (Vit.size0 tensor)) as [-> ->],
      (Z_of_nat_not_below (Vit.size2 tensor)) as [-> ->]. simpl.
    destruct (Z.ltb_spec height (-1)); [done|].
    destruct (Z.ltb_spec width (-1)); [done|]. simpl.
    destruct (Z.eqb_spec height (-1)) as [->|Hh], (Z.eqb_spec width (-1)) as [->|Hw];
      simpl; try done; try lia.
    + assert (Hz : Z.to_nat width = 0) by lia. rewrite Hz.
      by rewrite Nat.mul_0_r.
    + assert (Hz : Z.to_nat height = 0) by lia. rewrite Hz.
      by rewrite Nat.mul_0_r.
Qed.

Lemma reshape_transform_vit_spec_witness :
  Vit.is_grid_of Vit.five_tokens 2 2
    (Vit.reshape_transform_vit Vit.five_tokens 2 2) /\
  Vit.is_grid_of Vit.five_tokens 2 2
    (Vit.reshape_transform_vit Vit.five_tokens (-1) 2).
Proof.
  destruct (reshape_transform_vit_spec Vit.five_tokens 2 2) as (Ha & _);
    [simpl; lia..|].
  destruct (reshape_transform_vit_spec Vit.five_tokens (-1) 2) as (_ & Hb & _);
    [simpl; lia..|].
  split.
  - exact (Ha ltac:(lia) ltac:(lia)).
  - exact (Hb eq_refl ltac:(lia)).
Defined.

(** C6 (as stated) fails: on one summary token and four patch tokens the
    call the saliency pass makes does not produce a 2 by 2 grid, it
    raises; the side 2 has to be passed by the caller. *)
Lemma grid_side_not_inferred :
  Vit.reshape_transform_vit_default Vit.five_tokens = Raise RuntimeError /\
  (forall result, Vit.reshape_transform_vit_default Vit.five_tokens <> Ok result) /\
  exists result, Vit.reshape_transform_vit Vit.five_tokens 2 2 = Ok result /\
                 Vit.shape4 result = (1, 1, 2, 2).
Proof.
  split_and!.
  - reflexivity.
  - intros result. discriminate.
  - eexists. split; reflexivity.
Qed.

(* ===================================================================== *)
(** ** More on the model cache                                            *)
(* ===================================================================== *)

Lemma load_failure_stable w t s1 s2 :
  checkpoint_dir s1 = checkpoint_dir s2 ->
  models_cache s1 !! t = models_cache s2 !! t ->
  load_failure w s1 t = load_failure w s2 t.
Proof.
  intros Hd Hc.
  unfold load_failure, load_model, FoundationalCVModel_new,
    torch_load, load_state_dict.
  unfold_M. simpl. rewrite Hc.
  destruct (models_cache s2 !! t) as [m|]; simpl; [done|].
  destruct (TASKS_get t) as [[[k n] c]|]; simpl; [|done].
  destruct (backbone_available w); simpl; [|done].
  rewrite Hd.
  destruct (checkpoint w _) as [| |sd] eqn:Hk; simpl; rewrite ?Hk; simpl;
    try done.
  by destruct (decide (sd_out_features sd = n)).
Qed.

Lemma load_model_failure_cache w t s e s' :
  load_model w t s = (Raise e, s') ->
  models_cache s' = models_cache s /\ checkpoint_dir s' = checkpoint_dir s.
Proof.
  intros H. apply load_model_cases in H as (Hd & _ & H).
  destruct H as [(m & _ & [=] & _)|[(_ & _ & _ & ->)|(_ & k & n & c & _ & H)]];
    [auto|].
  cbv zeta in H.
  destruct H as [(_ & _ & Hc & _)|(_ & _ & [(_ & _ & Hc & _)|[(_ & _ & Hc & _)|H]])];
    [auto..|].
  by destruct H as (sd & _ & _ & [=] & _).
Qed.

(** X1.  Whatever makes [load_model] fail (unknown name, backbone not
    obtainable, checkpoint missing, unreadable or of the wrong shape),
    the cache it leaves is the cache it found, and no heatmap has been
    written. *)
Theorem load_model_failure_keeps_cache w t s e s' :
  load_model w t s = (Raise e, s') ->
  models_cache s' = models_cache s /\ saved_figs s' = saved_figs s.
Proof.
  intros H. split.
  - by apply load_model_failure_cache in H as [? _].
  - by apply load_model_saved_figs in H.
Qed.

Lemma load_model_failure_keeps_cache_witness :
  models_cache
    (load_model (demo_world ImgMissing) "ICDR" (api_init "ckpt")).2 = ∅.
Proof.
  refine (proj1 (load_model_failure_keeps_cache (demo_world ImgMissing) "ICDR"
           (api_init "ckpt") FileNotFoundError _ _)).
  vm_compute. reflexivity.
Defined.

(** X2.  In every reachable state, a model that [load_model] returns for
    a task is the one cached under that task, its head has the output
    dimension the registry gives the task, and its forward pass yields
    that many logits. *)
Theorem load_model_returns_cached_head w t s m s' x :
  reachable w s ->
  load_model w t s = (Ok m, s') ->
  models_cache s' !! t = Some m /\
  (exists k c, TASKS_get t = Some (k, num_classes m, c)) /\
  length (forward m x) = num_classes m.
Proof.
  intros Hr H.
  assert (Hwf : cache_wf w s') by eauto using load_model_wf, reachable_wf.
  assert (Hc : models_cache s' !! t = Some m).
  { apply load_model_cases in H as (_ & _ & H).
    destruct H as [(m' & Hm & [= ->] & ->)|[(_ & _ & [=] & _)|(_ & k & n & c & _ & H)]];
      [done|].
    cbv zeta in H.
    destruct H as [(_ & [=] & _)|(_ & _ & [(_ & [=] & _)|[([=] & _)|H]])].
    destruct H as (sd & _ & _ & [= ->] & -> & _). apply lookup_insert_eq. }
  split; [done|]. split.
  - by destruct (Hwf t m Hc) as (? & _).
  - unfold forward. by rewrite length_map, length_seq.
Qed.

Lemma load_model_returns_cached_head_witness :
  models_cache age_loaded !! "Age" = Some age_model /\
  (exists k c, TASKS_get "Age" = Some (k, num_classes age_model, c)) /\
  length (forward age_model black_image) = 1.
Proof.
  apply (load_model_returns_cached_head (demo_world ImgMissing) "Age"
           (api_init "ckpt") age_model age_loaded black_image).
  - apply reach_init.
  - vm_compute. reflexivity.
Defined.

Lemma load_model_keeps w t s r s' t0 m0 :
  models_cache s !! t0 = Some m0 ->
  load_model w t s = (r, s') ->
  models_cache s' !! t0 = Some m0.
Proof.
  intros H0 H. destruct (decide (t0 = t)) as [->|Hne].
  - apply load_model_cases in H as (_ & _ & H).
    destruct H as [(m & _ & _ & ->)|[(Hn & _)|(Hn & _)]]; [done|congruence..].
  - by rewrite (load_model_frame _ _ _ _ _ t0 H).
Qed.

Lemma predict_and_explain_keeps w img t s r s' t0 m0 :
  models_cache s !! t0 = Some m0 ->
  predict_and_explain w img t s = (r, s') ->
  models_cache s' !! t0 = Some m0.
Proof.
  intros H0 H.
  apply predict_and_explain_cases in H as (rl & sl & Hl & _ & -> & _).
  eauto using load_model_keeps.
Qed.

Lemma profile_loop_keeps w img tasks acc s r s' t0 m0 :
  models_cache s !! t0 = Some m0 ->
  profile_loop w img tasks acc s = (r, s') ->
  models_cache s' !! t0 = Some m0.
Proof.
  intros H0 H.
  destruct (profile_loop_rule w img
              (fun _ _ s1 => models_cache s1 !! t0 = Some m0) tasks)
    with (acc := acc) (s := s) as (res & s1 & H1 & Hk);
    [|done|rewrite H in H1; by injection H1 as -> ->].
  intros done t rest acc0 s0 r0 s0' _ Hk Hstep.
  destruct (profile_step_cases w img t acc0 s0)
    as (r1 & s1 & Hs1 & rp & sp & Hp & _ & Hc & _).
  rewrite Hstep in Hs1. injection Hs1 as <- <-.
  rewrite Hc. eauto using predict_and_explain_keeps.
Qed.

Lemma preload_loop_keeps w tasks s t0 m0 :
  models_cache s !! t0 = Some m0 ->
  models_cache (preload_loop w tasks s).2 !! t0 = Some m0.
Proof.
  revert s. induction tasks as [|t rest IH]; intros s H0; [done|].
  simpl. unfold bind at 1, try_except, bind at 1.
  destruct (load_model w t s) as [[m|e] s1] eqn:Hl; unfold ret;
    apply IH; eauto using load_model_keeps.
Qed.

(** X3.  The cache only grows: no call on the API object removes an
    entry or replaces the model cached under a task. *)
Theorem cache_entries_persist w c s t m :
  models_cache s !! t = Some m ->
  models_cache (run_call w c s) !! t = Some m.
Proof.
  intros H. destruct c as [t1| |img t1|img]; simpl.
  - destruct (load_model w t1 s) eqn:Hl. eauto using load_model_keeps.
  - by apply preload_loop_keeps.
  - destruct (predict_and_explain w img t1 s) eqn:Hl.
    eauto using predict_and_explain_keeps.
  - unfold run_full_profile.
    destruct (profile_loop w img TASKS_keys [] s) eqn:Hl.
    eauto using profile_loop_keeps.
Qed.

Lemma cache_entries_persist_witness :
  models_cache
    (run_call (demo_world ImgMissing) (CallProfile "gone.jpg") age_loaded)
    !! "Age" = Some age_model.
Proof.
  apply (cache_entries_persist (demo_world ImgMissing)). vm_compute. reflexivity.
Defined.

(** X4.  The cache of a reachable state never holds more than the ten
    registry tasks. *)
Theorem cache_bounded_by_registry w s :
  reachable w s -> size (models_cache s) <= 10.
Proof.
  intros Hr. pose proof (reachable_wf _ _ Hr) as Hwf.
  assert (Hsub : dom (models_cache s) ⊆ list_to_set (C := gset string) TASKS_keys).
  { intros t Ht. apply elem_of_dom in Ht as [m Hm].
    apply elem_of_list_to_set, TASKS_get_keys.
    destruct (Hwf t m Hm) as ((k & c & ->) & _). eauto. }
  apply subseteq_size in Hsub.
  rewrite size_dom, size_list_to_set in Hsub by apply TASKS_keys_NoDup.
  exact Hsub.
Qed.

Lemma cache_bounded_by_registry_witness :
  size (models_cache age_gender_loaded) <= 10.
Proof.
  apply (cache_bounded_by_registry (demo_world ImgMissing)).
  apply (reach_call _ _ (CallLoad "Gender")).
  apply (reach_call _ _ (CallLoad "Age")).
  apply reach_init.
Defined.

(** X5.  A failed load is not remembered.  When [load_model] raises on a
    registered task, calling it again raises the same exception and
    fetches the pretrained backbone once more. *)
Theorem load_failure_is_retried w t s e s1 :
  is_Some (TASKS_get t) ->
  load_model w t s = (Raise e, s1) ->
  (load_model w t s1).1 = Raise e /\
  backbone_loads (load_model w t s1).2 = S (backbone_loads s1).
Proof.
  intros [[[k n] c] Hreg] H.
  pose proof (load_model_failure_cache _ _ _ _ _ H) as (Hc & Hd).
  assert (Hmiss : models_cache s !! t = None).
  { apply load_model_cases in H as (_ & _ & H).
    destruct H as [(m & _ & [=] & _)|[(? & _)|(? & _)]]; done. }
  split.
  - pose proof (load_failure_stable w t s1 s Hd) as Hst.
    rewrite Hc in Hst. specialize (Hst eq_refl).
    unfold load_failure in Hst. rewrite H in Hst. simpl in Hst.
    destruct (load_model w t s1).1; congruence.
  - destruct (load_model w t s1) as [r2 s2] eqn:H2. simpl.
    apply load_model_cases in H2 as (_ & _ & H2).
    rewrite Hc, Hmiss in H2.
    destruct H2 as [(m & [=] & _)|[(_ & Hu & _)|(_ & k' & n' & c' & _ & H2)]];
      [congruence|].
    cbv zeta in H2.
    destruct H2 as [(_ & _ & _ & _ & Hio)|(_ & _ & [(_ & _ & _ & Hio)|[(_ & _ & _ & Hio)|H2]])];
      [rewrite (backbone_loads_app _ _ _ Hio); simpl; lia..|].
    destruct H2 as (sd & _ & _ & _ & _ & Hio).
    rewrite (backbone_loads_app _ _ _ Hio). simpl. lia.
Qed.

Lemma load_failure_is_retried_witness :
  (load_model (demo_world ImgMissing) "ICDR"
     (load_model (demo_world ImgMissing) "ICDR" (api_init "ckpt")).2).1
  = Raise FileNotFoundError.
Proof.
  apply (load_failure_is_retried (demo_world ImgMissing) "ICDR" (api_init "ckpt")).
  - vm_compute. eauto.
  - vm_compute. reflexivity.
Defined.

(* ===================================================================== *)
(** ** More on [predict_and_explain] and on heatmap files                 *)
(* ===================================================================== *)

Lemma predict_and_explain_fst w img t s :
  (predict_and_explain w img t s).1 =
  match (load_model w t s).1 with
  | Raise e => Raise e
  | Ok m => explain_outcome w img t m
  end.
Proof.
  unfold predict_and_explain, bind at 1.
  destruct (load_model w t s) as [[m|e] sl]; simpl; [|done].
  unfold explain_outcome.
  destruct (TASKS_get t) as [[[k n] c]|]; [|done].
  unfold Image_open, gradcam_and_save. unfold_M. simpl.
  destruct (image_at w img) as [| |px]; simpl; try done.
  destruct (decode w k (forward m px)) as [[res idx]|e]; simpl; [|done].
  by destruct (gradcam_failure w t).
Qed.

Lemma predict_and_explain_success_inv w img t s pred map_path s' :
  predict_and_explain w img t s = (Ok (pred, map_path), s') ->
  map_path = save_path_of w img t /\
  saved_figs s' = saved_figs s ++ [IoSaveFig map_path] /\
  is_Some (models_cache s' !! t) /\
  (exists px, image_at w img = ImgGood px).
Proof.
  intros H.
  apply predict_and_explain_cases in H as (rl & sl & Hl & _ & Hc & _ & _ & H).
  pose proof (load_model_saved_figs _ _ _ _ _ Hl) as Hfig.
  destruct rl as [m|e]; [|by destruct H as [[=] _]].
  assert (Hcached : is_Some (models_cache s' !! t)).
  { rewrite Hc. apply load_model_cases in Hl as (_ & _ & Hl).
    destruct Hl as [(m' & Hm & _ & ->)|[(_ & _ & [=] & _)|(_ & k & n & c & _ & Hl)]];
      [eauto|].
    cbv zeta in Hl.
    destruct Hl as [(_ & [=] & _)|(_ & _ & [(_ & [=] & _)|[([=] & _)|Hl]])].
    destruct Hl as (sd & _ & _ & _ & -> & _). rewrite lookup_insert_eq. eauto. }
  destruct (TASKS_get t) as [[[k n] c]|]; [|by destruct H as [[=] _]].
  destruct (image_at w img) as [| |px]; [by destruct H as [[=] _]..|].
  destruct (decode w k (forward m px)) as [[res idx]|e]; [|by destruct H as [[=] _]].
  destruct (gradcam_failure w t) as [e|]; [by destruct H as [[=] _]|].
  destruct H as [[= -> ->] Hio].
  rewrite (saved_figs_app _ _ _ Hio), Hfig. simpl. eauto.
Qed.

(** X6.  A successful [predict_and_explain] has found a decodable image,
    returns the path [CAM_DIR/{stem}_{task}_cam.png], has written exactly
    that one heatmap, and leaves the task's model in the cache. *)
Theorem predict_and_explain_success w img t s pred map_path s' :
  predict_and_explain w img t s = (Ok (pred, map_path), s') ->
  map_path = save_path_of w img t /\
  saved_figs s' = saved_figs s ++ [IoSaveFig map_path] /\
  is_Some (models_cache s' !! t) /\
  (exists px, image_at w img = ImgGood px).
Proof. apply predict_and_explain_success_inv. Qed.

Lemma predict_and_explain_success_witness :
  saved_figs
    (predict_and_explain (demo_world (ImgGood black_image)) "scan.jpg" "Age"
       (api_init "ckpt")).2
  = [IoSaveFig "artifacts/gradcam_inference/scan_Age_cam.png"].
Proof.
  destruct (predict_and_explain_success (demo_world (ImgGood black_image))
              "scan.jpg" "Age" (api_init "ckpt") (Scalar (Finite 0%R))
              "artifacts/gradcam_inference/scan_Age_cam.png"
              (predict_and_explain (demo_world (ImgGood black_image)) "scan.jpg"
                 "Age" (api_init "ckpt")).2) as (_ & H & _).
  - vm_compute. reflexivity.
  - exact H.
Defined.

Lemma string_length_app (a b : string) :
  String.length (a +:+ b) = String.length a + String.length b.
Proof.
  induction a as [|c a IH]; [done|].
  change (S (String.length (a +:+ b)) = S (String.length a + String.length b)).
  by rewrite IH.
Qed.

Lemma string_app_inj_r (suffix a b : string) :
  a +:+ suffix = b +:+ suffix -> a = b.
Proof.
  revert b. induction a as [|c a IH]; intros [|d b] H.
  - done.
  - apply (f_equal String.length) in H.
    rewrite !string_length_app in H. simpl in H. lia.
  - apply (f_equal String.length) in H.
    rewrite !string_length_app in H. simpl in H. lia.
  - change (String c (a +:+ suffix) = String d (b +:+ suffix)) in H.
    injection H as -> H. f_equal. by apply IH.
Qed.

(** X7.  For one image, two different tasks never get the same heatmap
    path, so the heatmaps of one profile do not overwrite each other. *)
Theorem save_path_separates_tasks w img t1 t2 :
  save_path_of w img t1 = save_path_of w img t2 -> t1 = t2.
Proof.
  unfold save_path_of. intros H.
  do 4 apply String.app_inj in H.
  by apply string_app_inj_r in H.
Qed.

Lemma save_path_separates_tasks_witness :
  save_path_of (demo_world ImgMissing) "scan.jpg" "Age"
  <> save_path_of (demo_world ImgMissing) "scan.jpg" "AMI".
Proof.
  intros H.
  apply (save_path_separates_tasks (demo_world ImgMissing) "scan.jpg" "Age" "AMI") in H.
  discriminate H.
Defined.

(* ===================================================================== *)
(** ** More on [run_full_profile]                                         *)
(* ===================================================================== *)

(** X8.  [run_full_profile] writes exactly one heatmap per key of the
    mapping it returns, in the order of the keys, at the path
    [CAM_DIR/{stem}_{key}_cam.png], and that path is the entry's
    [attention_map]; it writes nothing for an omitted task. *)
Theorem profile_heatmaps_match_keys w img s :
  exists res s', run_full_profile w img s = (Ok res, s') /\
    saved_figs s' =
      saved_figs s ++ map (fun t => IoSaveFig (save_path_of w img t)) (dict_keys res) /\
    Forall (fun item =>
              dict_get "attention_map" item.2
              = Some (PyStr (save_path_of w img item.1))) res.
Proof.
  pose proof TASKS_keys_NoDup as Hnd.
  destruct (profile_loop_rule w img
    (fun done res s1 =>
       (forall k, k ∈ dict_keys res -> k ∈ done) /\
       saved_figs s1 =
         saved_figs s ++ map (fun t => IoSaveFig (save_path_of w img t)) (dict_keys res) /\
       Forall (fun item =>
                 dict_get "attention_map" item.2
                 = Some (PyStr (save_path_of w img item.1))) res) TASKS_keys)
    with (acc := @nil (string * list (string * pyval))) (s := s)
    as (res & s' & H & _ & Hfig & Hall).
  - intros done t rest acc s0 r s0' Heq (Hsub & Hfig & Hall) Hstep.
    assert (Ht : t ∉ done).
    { rewrite Heq in Hnd. apply NoDup_app in Hnd as (_ & Hnd & _).
      intros Hin. apply (Hnd _ Hin). left. }
    destruct (profile_step_cases w img t acc s0)
      as (r1 & s1 & Hs1 & rp & sp & Hp & _ & _ & _ & Hio & Hr).
    rewrite Hstep in Hs1. injection Hs1 as <- <-.
    destruct rp as [[pred map_path]|e].
    + destruct Hr as [-> ->].
      apply predict_and_explain_success_inv in Hp as (-> & Hsp & _).
      assert (Hnew : t ∉ dict_keys acc) by (intros Hin; by apply Ht, Hsub).
      rewrite dict_keys_set_new by done. split_and!.
      * intros k Hk. apply elem_of_app. apply elem_of_app in Hk as [Hk|Hk]; auto.
      * rewrite Hsp, Hfig, map_app, <- app_assoc. done.
      * apply dict_set_Forall; [reflexivity|done].
    + destruct Hr as [-> _].
      apply predict_and_explain_raise_saved_figs in Hp.
      split_and!; [|unfold saved_figs in *; by rewrite Hio, Hp|done].
      intros k Hk. apply elem_of_app. auto.
  - simpl. rewrite app_nil_r. split_and!; [|done|constructor].
    intros k Hk. inversion Hk.
  - by exists res, s'.
Qed.

Lemma filter_omap_length {A B} (f : A -> option B) (P : A -> Prop)
    `{forall x, Decision (P x)} (l : list A) :
  (forall x, P x <-> f x = None) ->
  length (filter P l) + length (omap f l) = length l.
Proof.
  intros HP. induction l as [|x l IH]; [done|].
  rewrite filter_cons. simpl. destruct (f x) as [y|] eqn:Hf.
  - rewrite decide_False by (rewrite HP; congruence).
    change (length (filter P l) + S (length (omap f l)) = S (length l)). lia.
  - rewrite decide_True by (by rewrite HP).
    change (S (length (filter P l)) + length (omap f l) = S (length l)). lia.
Qed.

(** X9.  Every registry task is accounted for by [run_full_profile]:
    the number of entries returned and the number of skip or error
    lines printed add up to ten. *)
Theorem profile_accounts_for_every_task w img s :
  exists res s', run_full_profile w img s = (Ok res, s') /\
    length res + (length (stdout s') - length (stdout s)) = 10.
Proof.
  destruct (profile_loop_spec w img TASKS_keys s TASKS_keys_NoDup)
    as (res & s' & H & Hk & Hout & _).
  exists res, s'. split; [done|].
  assert (Hlen : length res = length (dict_keys res)).
  { unfold dict_keys. by rewrite length_fmap. }
  rewrite Hlen, Hk, Hout, length_app.
  pose proof (filter_omap_length (report w img s)
                (fun t => task_succeeds w img s t = true) TASKS_keys) as Hsum.
  change (length TASKS_keys) with 10 in Hsum.
  rewrite <- Hsum; [lia|].
  intros t. rewrite task_succeeds_by_exn. unfold report.
  destruct (task_exn w img s t); split; congruence.
Qed.

(** The head that [load_model] returns is the head it leaves in the
    task's cache slot; a failure leaves the slot empty. *)
Lemma load_model_slot_after w t s r s' :
  load_model w t s = (r, s') ->
  head_of (models_cache s' !! t) =
  match r with
  | Ok m => Some (num_classes m, weights m)
  | Raise _ => None
  end /\
  (forall e, r = Raise e -> models_cache s !! t = None).
Proof.
  intros H. apply load_model_cases in H as (_ & _ & H).
  destruct H as [(m & Hm & -> & ->)|[(Hn & _ & -> & ->)|(Hn & k & n & c & _ & H)]].
  - rewrite Hm. split; [done|]. intros e [=].
  - rewrite Hn. done.
  - cbv zeta in H.
    destruct H as [(_ & -> & -> & _)|(_ & _ & [(_ & -> & -> & _)|[(-> & _ & -> & _)|H]])];
      try (rewrite Hn; done).
    destruct H as (sd & _ & _ & -> & -> & _). rewrite lookup_insert_eq.
    split; [done|]. intros e [=].
Qed.

(** Two states with the same checkpoint directory and the same head in
    a task's slot give [load_model] the same outcome, up to the identity
    of the backbone object. *)
Lemma load_model_head_stable w t s1 s2 :
  checkpoint_dir s1 = checkpoint_dir s2 ->
  head_of (models_cache s1 !! t) = head_of (models_cache s2 !! t) ->
  match (load_model w t s1).1, (load_model w t s2).1 with
  | Ok m1, Ok m2 => num_classes m1 = num_classes m2 /\ weights m1 = weights m2
  | Raise e1, Raise e2 => e1 = e2
  | _, _ => False
  end.
Proof.
  intros Hd Hh.
  unfold load_model, FoundationalCVModel_new, torch_load, load_state_dict.
  unfold_M. simpl.
  destruct (models_cache s1 !! t) as [m1|], (models_cache s2 !! t) as [m2|];
    simpl in *; try discriminate.
  { by injection Hh as -> ->. }
  destruct (TASKS_get t) as [[[k n] c]|]; simpl; [|done].
  destruct (backbone_available w); simpl; [|done].
  rewrite Hd.
  destruct (checkpoint w _) as [| |sd] eqn:Hk; simpl; rewrite ?Hk; simpl;
    try done.
  by destruct (decide (sd_out_features sd = n)).
Qed.

Lemma explain_outcome_head w img t m1 m2 :
  num_classes m1 = num_classes m2 -> weights m1 = weights m2 ->
  explain_outcome w img t m1 = explain_outcome w img t m2.
Proof.
  intros Hn Hw. unfold explain_outcome, forward. by rewrite Hn, Hw.
Qed.

(** The result of [predict_and_explain] depends on the state only
    through the checkpoint directory and the head in the task's slot. *)
Lemma predict_and_explain_result_stable w img t s1 s2 :
  checkpoint_dir s1 = checkpoint_dir s2 ->
  head_of (models_cache s1 !! t) = head_of (models_cache s2 !! t) ->
  (predict_and_explain w img t s1).1 = (predict_and_explain w img t s2).1.
Proof.
  intros Hd Hh. rewrite !predict_and_explain_fst.
  pose proof (load_model_head_stable w t s1 s2 Hd Hh) as H.
  destruct (load_model w t s1).1 as [m1|e1], (load_model w t s2).1 as [m2|e2];
    try done.
  - destruct H. by apply explain_outcome_head.
  - by subst.
Qed.

Lemma predict_and_explain_slot_after w img t s :
  head_of (models_cache (predict_and_explain w img t s).2 !! t) =
  match (load_model w t s).1 with
  | Ok m => Some (num_classes m, weights m)
  | Raise _ => None
  end.
Proof.
  destruct (predict_and_explain w img t s) as [r s'] eqn:Hp.
  apply predict_and_explain_cases in Hp as (rl & sl & Hl & _ & Hc & _).
  simpl. rewrite Hc, Hl. simpl.
  by apply load_model_slot_after in Hl as [-> _].
Qed.

Lemma predict_and_explain_slot_stable w img t s1 s2 :
  checkpoint_dir s1 = checkpoint_dir s2 ->
  head_of (models_cache s1 !! t) = head_of (models_cache s2 !! t) ->
  head_of (models_cache (predict_and_explain w img t s1).2 !! t) =
  head_of (models_cache (predict_and_explain w img t s2).2 !! t).
Proof.
  intros Hd Hh. rewrite !predict_and_explain_slot_after.
  pose proof (load_model_head_stable w t s1 s2 Hd Hh) as H.
  destruct (load_model w t s1).1 as [m1|e1], (load_model w t s2).1 as [m2|e2];
    try done.
  destruct H as [-> ->]. done.
Qed.

(** Calling [predict_and_explain] again, in any state that has kept the
    slot the first call left, gives the result of the first call. *)
Lemma predict_and_explain_again w img t s s1 :
  checkpoint_dir s1 = checkpoint_dir s ->
  head_of (models_cache s1 !! t) =
    head_of (models_cache (predict_and_explain w img t s).2 !! t) ->
  (predict_and_explain w img t s1).1 = (predict_and_explain w img t s).1.
Proof.
  intros Hd Hh. rewrite predict_and_explain_slot_after in Hh.
  rewrite !predict_and_explain_fst.
  destruct (load_model w t s) as [r sl] eqn:Hl. simpl in *.
  destruct r as [m|e].
  - destruct (models_cache s1 !! t) as [m1|] eqn:Hm1; [|done].
    injection Hh as Hn Hw.
    rewrite (load_model_hit w t s1 m1 Hm1). simpl.
    by apply explain_outcome_head.
  - destruct (models_cache s1 !! t) as [m1|] eqn:Hm1; [done|].
    pose proof (load_model_slot_after _ _ _ _ _ Hl) as [_ Hmiss].
    specialize (Hmiss e eq_refl).
    pose proof (load_failure_stable w t s1 s Hd) as Hst.
    rewrite Hm1, Hmiss in Hst. specialize (Hst eq_refl).
    unfold load_failure in Hst. rewrite Hl in Hst. simpl in Hst.
    destruct (load_model w t s1).1; congruence.
Qed.

Lemma collect_entries_app outcome l1 l2 acc :
  collect_entries outcome (l1 ++ l2) acc =
  collect_entries outcome l2 (collect_entries outcome l1 acc).
Proof. unfold collect_entries. by rewrite fold_left_app. Qed.

Lemma collect_entries_ext f g tasks acc :
  (forall t, t ∈ tasks -> f t = g t) ->
  collect_entries f tasks acc = collect_entries g tasks acc.
Proof.
  revert acc. induction tasks as [|t rest IH]; intros acc H; [done|].
  unfold collect_entries in *. simpl. rewrite (H t) by left.
  apply IH. intros t' Ht'. apply H. by right.
Qed.

(** The mapping built by the profile loop, task by task, from the
    results [predict_and_explain] has in the state the loop starts from;
    and the slots the loop leaves. *)
Lemma profile_loop_collect w img tasks acc s :
  NoDup tasks ->
  exists res s', profile_loop w img tasks acc s = (Ok res, s') /\
    res = collect_entries (fun t => (predict_and_explain w img t s).1) tasks acc /\
    checkpoint_dir s' = checkpoint_dir s /\
    (forall t, t ∉ tasks -> models_cache s' !! t = models_cache s !! t) /\
    (forall t, t ∈ tasks ->
       head_of (models_cache s' !! t) =
       head_of (models_cache (predict_and_explain w img t s).2 !! t)).
Proof.
  intros Hnd.
  apply (profile_loop_rule w img
    (fun done res s1 =>
       res = collect_entries (fun t => (predict_and_explain w img t s).1) done acc /\
       checkpoint_dir s1 = checkpoint_dir s /\
       (forall t, t ∉ done -> models_cache s1 !! t = models_cache s !! t) /\
       (forall t, t ∈ done ->
          head_of (models_cache s1 !! t) =
          head_of (models_cache (predict_and_explain w img t s).2 !! t)))).
  2:{ split_and!; try done. intros t Ht. inversion Ht. }
  intros done t rest acc0 s0 r s0' Heq (Hres & Hd & Hout & Hin) Hstep.
  assert (Ht : t ∉ done).
  { rewrite Heq in Hnd. apply NoDup_app in Hnd as (_ & Hnd & _).
    intros Hi. apply (Hnd _ Hi). left. }
  destruct (profile_step_cases w img t acc0 s0)
    as (r1 & s1 & Hs1 & rp & sp & Hp & Hd' & Hc' & _ & _ & Hr).
  rewrite Hstep in Hs1. injection Hs1 as <- <-.
  pose proof (predict_and_explain_dir _ _ _ _ _ _ Hp) as [Hdp _].
  assert (Hslot : head_of (models_cache s0 !! t) = head_of (models_cache s !! t))
    by (by rewrite Hout).
  pose proof (predict_and_explain_result_stable w img t s0 s Hd Hslot) as Hsame.
  rewrite Hp in Hsame. simpl in Hsame.
  split_and!.
  - rewrite collect_entries_app, <- Hres. unfold collect_entries. simpl.
    rewrite <- Hsame. destruct rp as [[pred map_path]|e]; by destruct Hr as [-> _].
  - congruence.
  - intros t' Hn. apply not_elem_of_app in Hn as [Hn1 Hn2].
    rewrite Hc', (predict_and_explain_frame _ _ _ _ _ _ t' Hp).
    + by apply Hout.
    + intros ->. apply Hn2. left.
  - intros t' Hi. apply elem_of_app in Hi as [Hi|Hi].
    + rewrite Hc', (predict_and_explain_frame _ _ _ _ _ _ t' Hp).
      * by apply Hin.
      * intros ->. done.
    + apply list_elem_of_singleton in Hi as ->. rewrite Hc'.
      pose proof (predict_and_explain_slot_stable w img t s0 s Hd Hslot) as Hs.
      by rewrite Hp in Hs.
Qed.

Lemma profile_repeatable_from w img s :
  exists res s1 s2,
    run_full_profile w img s = (Ok res, s1) /\
    run_full_profile w img s1 = (Ok res, s2).
Proof.
  destruct (profile_loop_collect w img TASKS_keys [] s TASKS_keys_NoDup)
    as (res & s1 & H1 & Hres & Hd & _ & Hslot).
  destruct (profile_loop_collect w img TASKS_keys [] s1 TASKS_keys_NoDup)
    as (res2 & s2 & H2 & Hres2 & _).
  exists res, s1, s2. split; [done|].
  unfold run_full_profile. rewrite H2. f_equal. f_equal.
  rewrite Hres, Hres2. apply collect_entries_ext.
  intros t Ht. apply predict_and_explain_again; auto.
Qed.

(** X10.  Running [run_full_profile] a second time on the same image
    returns the same mapping as the first run: the same keys in the same
    order with the same predictions and paths, although the first run
    has changed the cache. *)
Theorem profile_repeatable w img s :
  exists res s1 s2,
    run_full_profile w img s = (Ok res, s1) /\
    run_full_profile w img s1 = (Ok res, s2).
Proof. apply profile_repeatable_from. Qed.

Lemma load_model_backbone_count w t s r s' :
  load_model w t s = (r, s') ->
  backbone_loads s' =
  backbone_loads s +
  match models_cache s !! t, TASKS_get t with
  | None, Some _ => 1
  | _, _ => 0
  end.
Proof.
  intros H. apply load_model_cases in H as (_ & _ & H).
  destruct H as [(m & -> & _ & ->)|[(-> & -> & _ & ->)|(-> & k & n & c & -> & H)]];
    [lia..|].
  cbv zeta in H.
  destruct H as [(_ & _ & _ & _ & Hio)|(_ & _ & [(_ & _ & _ & Hio)|[(_ & _ & _ & Hio)|H]])];
    [by rewrite (backbone_loads_app _ _ _ Hio)..|].
  destruct H as (sd & _ & _ & _ & _ & Hio).
  by rewrite (backbone_loads_app _ _ _ Hio).
Qed.

(** After its [load_model], [predict_and_explain] only opens the image
    and saves the figure. *)
Lemma predict_and_explain_tail w img t s r s' :
  predict_and_explain w img t s = (r, s') ->
  exists rl sl evs, load_model w t s = (rl, sl) /\
    io_log s' = io_log sl ++ evs /\
    Forall (fun ev => ev = IoImageOpen img \/ ev = IoSaveFig (save_path_of w img t)) evs.
Proof.
  intros H.
  apply predict_and_explain_cases in H as (rl & sl & Hl & _ & _ & _ & _ & H).
  exists rl, sl.
  assert (Hnone : s' = sl -> exists evs, load_model w t s = (rl, sl) /\
            io_log s' = io_log sl ++ evs /\
            Forall (fun ev => ev = IoImageOpen img \/
                              ev = IoSaveFig (save_path_of w img t)) evs).
  { intros ->. exists []. rewrite app_nil_r. auto. }
  assert (Hopen : io_log s' = io_log sl ++ [IoImageOpen img] ->
            exists evs, load_model w t s = (rl, sl) /\
            io_log s' = io_log sl ++ evs /\
            Forall (fun ev => ev = IoImageOpen img \/
                              ev = IoSaveFig (save_path_of w img t)) evs).
  { intros Hio. exists [IoImageOpen img]. split_and!; auto. }
  destruct rl as [m|e]; [|by apply Hnone, H].
  destruct (TASKS_get t) as [[[k n] c]|]; [|by apply Hnone, H].
  destruct (image_at w img) as [| |px]; [by apply Hopen, H..|].
  destruct (decode w k (forward m px)) as [[res idx]|e]; [|by apply Hopen, H].
  destruct (gradcam_failure w t) as [e|]; [by apply Hopen, H|].
  destruct H as [_ Hio]. eexists. split_and!; [done|exact Hio|auto].
Qed.

Lemma predict_and_explain_backbone_count w img t s r s' :
  predict_and_explain w img t s = (r, s') ->
  backbone_loads s' =
  backbone_loads s +
  match models_cache s !! t, TASKS_get t with
  | None, Some _ => 1
  | _, _ => 0
  end.
Proof.
  intros H. apply predict_and_explain_tail in H as (rl & sl & evs & Hl & Hio & Hevs).
  rewrite (backbone_loads_app _ _ _ Hio), (load_model_backbone_count _ _ _ _ _ Hl).
  assert (Hz : filter (fun ev => ev = IoFromPretrained) evs = []).
  { apply filter_none. intros ev Hev.
    rewrite Forall_forall in Hevs. by destruct (Hevs ev Hev) as [->| ->]. }
  rewrite Hz. simpl. lia.
Qed.

(** X11.  One [run_full_profile] fetches the pretrained backbone once
    for every registry task that is not cached when it starts, whether
    or not that task's checkpoint exists, and never for a cached one. *)
Theorem profile_backbone_cost w img s :
  exists res s', run_full_profile w img s = (Ok res, s') /\
    backbone_loads s' =
    backbone_loads s +
    length (filter (fun t => models_cache s !! t = None) TASKS_keys).
Proof.
  pose proof TASKS_keys_NoDup as Hnd.
  destruct (profile_loop_rule w img
    (fun done _ s1 =>
       (forall t, t ∉ done -> models_cache s1 !! t = models_cache s !! t) /\
       backbone_loads s1 =
       backbone_loads s + length (filter (fun t => models_cache s !! t = None) done))
    TASKS_keys)
    with (acc := @nil (string * list (string * pyval))) (s := s)
    as (res & s' & H & _ & Hcnt).
  - intros done t rest acc s0 r s0' Heq (Hout & Hcnt) Hstep.
    assert (Ht : t ∉ done).
    { rewrite Heq in Hnd. apply NoDup_app in Hnd as (_ & Hnd & _).
      intros Hi. apply (Hnd _ Hi). left. }
    assert (Hreg : is_Some (TASKS_get t)).
    { apply TASKS_get_keys. rewrite Heq. apply elem_of_app. right. left. }
    destruct (profile_step_cases w img t acc s0)
      as (r1 & s1 & Hs1 & rp & sp & Hp & _ & Hc' & _ & Hio & _).
    rewrite Hstep in Hs1. injection Hs1 as <- <-.
    split.
    + intros t' Hn. apply not_elem_of_app in Hn as [Hn1 Hn2].
      rewrite Hc', (predict_and_explain_frame _ _ _ _ _ _ t' Hp).
      * by apply Hout.
      * intros ->. apply Hn2. left.
    + unfold backbone_loads at 1. rewrite Hio. fold (backbone_loads sp).
      rewrite (predict_and_explain_backbone_count _ _ _ _ _ _ Hp), Hcnt.
      rewrite (Hout t Ht), filter_app, length_app, filter_cons, filter_nil.
      destruct Hreg as [info ->].
      destruct (models_cache s !! t) as [m|].
      * rewrite decide_False by done. simpl. lia.
      * rewrite decide_True by done. simpl. lia.
  - split; [done|]. simpl. lia.
  - by exists res, s'.
Qed.

(** X12.  While the pretrained backbone cannot be fetched and no task is
    cached, [run_full_profile] returns the empty mapping, prints an
    error line for each of the ten tasks, and its only I/O is ten
    attempts to fetch the backbone: no checkpoint and no image file is
    touched. *)
Theorem profile_without_backbone w img s :
  backbone_available w = false ->
  (forall t, t ∈ TASKS_keys -> models_cache s !! t = None) ->
  exists s', run_full_profile w img s = (Ok [], s') /\
    stdout s' = stdout s ++ map (fun t => PrintError t OSError) TASKS_keys /\
    io_log s' = io_log s ++ replicate 10 IoFromPretrained.
Proof.
  intros Hb Hmiss.
  assert (Hload : forall t s0, t ∈ TASKS_keys -> models_cache s0 !! t = None ->
    load_model w t s0 =
    (Raise OSError,
     {| checkpoint_dir := checkpoint_dir s0; models_cache := models_cache s0;
        next_object := next_object s0; io_log := io_log s0 ++ [IoFromPretrained];
        stdout := stdout s0 |})).
  { intros t s0 Ht Hn. apply TASKS_get_keys in Ht as [[[k n] c] Hreg].
    unfold load_model, FoundationalCVModel_new. unfold_M. simpl.
    by rewrite Hn, Hreg, Hb. }
  assert (Hexn : forall t, t ∈ TASKS_keys -> task_exn w img s t = Some OSError).
  { intros t Ht. apply task_exn_load_failure. unfold load_failure.
    by rewrite (Hload t s Ht (Hmiss t Ht)). }
  destruct (profile_loop_spec w img TASKS_keys s TASKS_keys_NoDup)
    as (res & s' & H & Hkeys & Hout & _).
  rewrite filter_none in Hkeys.
  2:{ intros t Ht. by rewrite task_succeeds_by_exn, Hexn. }
  destruct res as [|item res]; [|done].
  exists s'. split; [done|]. split.
  { rewrite Hout. f_equal. apply omap_eq_map. intros t Ht.
    unfold report. by rewrite Hexn. }
  destruct (profile_loop_rule w img
    (fun done _ s1 =>
       models_cache s1 = models_cache s /\
       io_log s1 = io_log s ++ replicate (length done) IoFromPretrained)
    TASKS_keys)
    with (acc := @nil (string * list (string * pyval))) (s := s)
    as (res2 & s2 & H2 & _ & Hio).
  - intros done t rest acc s0 r s0' Heq (Hc & Hio) Hstep.
    assert (Ht : t ∈ TASKS_keys) by (rewrite Heq; apply elem_of_app; right; left).
    assert (Hl := Hload t s0 Ht). rewrite Hc in Hl. specialize (Hl (Hmiss t Ht)).
    destruct (profile_step_cases w img t acc s0)
      as (r1 & s1 & Hs1 & rp & sp & Hp & _ & Hc' & _ & Hio' & _).
    rewrite Hstep in Hs1. injection Hs1 as <- <-.
    unfold predict_and_explain, bind in Hp. rewrite Hl in Hp.
    injection Hp as <- <-. simpl in *.
    split; [congruence|].
    rewrite Hio', Hio, length_app, replicate_add, <- app_assoc. done.
  - split; [done|]. simpl. by rewrite app_nil_r.
  - unfold run_full_profile in H. rewrite H in H2. injection H2 as <- <-.
    exact Hio.
Qed.

Lemma profile_without_backbone_witness :
  exists s',
    run_full_profile
      (offline_world (ImgGood black_image))
      "scan.jpg" (api_init "ckpt") = (Ok [], s') /\
    stdout s' = map (fun t => PrintError t OSError) TASKS_keys.
Proof.
  destruct (profile_without_backbone
              (offline_world (ImgGood black_image))
              "scan.jpg" (api_init "ckpt")) as (s' & H & Hout & _).
  - reflexivity.
  - intros t _. apply lookup_empty.
  - exists s'. split; [exact H|]. exact Hout.
Defined.

(* ===================================================================== *)
(** ** Warm-up: [preload_all_models]                                      *)
(* ===================================================================== *)

Lemma preload_loop_spec w tasks : forall s,
  NoDup tasks ->
  exists s', preload_loop w tasks s = (Ok tt, s') /\
    checkpoint_dir s' = checkpoint_dir s /\
    (forall t, t ∉ tasks -> models_cache s' !! t = models_cache s !! t) /\
    (forall t, t ∈ tasks ->
       (is_Some (models_cache s' !! t) <-> load_failure w s t = None)).
Proof.
  induction tasks as [|t rest IH]; intros s Hnd.
  { exists s. split_and!; try done. intros t Ht. inversion Ht. }
  apply NoDup_cons in Hnd as [Ht Hnd].
  simpl. unfold bind at 1, try_except, bind at 1.
  destruct (load_model w t s) as [r s1] eqn:Hl.
  pose proof (load_model_cases _ _ _ _ _ Hl) as (Hd & _ & _).
  pose proof (load_model_slot_after _ _ _ _ _ Hl) as [Hslot _].
  destruct (IH s1 Hnd) as (s' & Hrest & Hd' & Hout & Hin).
  exists s'. split.
  { destruct r; simpl; exact Hrest. }
  split; [congruence|]. split.
  - intros t' Hn. apply not_elem_of_cons in Hn as [Hne Hn].
    rewrite (Hout t' Hn). eauto using load_model_frame.
  - intros t' Hi. apply elem_of_cons in Hi as [->|Hi].
    + rewrite (Hout t Ht). unfold load_failure. rewrite Hl. simpl.
      destruct r as [m|e]; destruct (models_cache s1 !! t) as [m'|];
        simpl in Hslot; try discriminate;
        (split; intros H'; try done; try (by destruct H' as [? [=]]); eauto).
    + rewrite (Hin t' Hi).
      assert (Hne : t' <> t) by (intros ->; done).
      rewrite (load_failure_stable w t' s1 s Hd); [done|].
      eauto using load_model_frame.
Qed.

(** X13.  [preload_all_models] never raises.  Afterwards a registry task
    is cached exactly when [load_model] succeeds for it (it was cached
    already, or its checkpoint could be loaded); names outside the
    registry are left as they were. *)
Theorem preload_caches_loadable_tasks w s :
  exists s', preload_all_models w s = (Ok tt, s') /\
    (forall t, t ∈ TASKS_keys ->
       (is_Some (models_cache s' !! t) <-> load_failure w s t = None)) /\
    (forall t, t ∉ TASKS_keys -> models_cache s' !! t = models_cache s !! t).
Proof.
  destruct (preload_loop_spec w TASKS_keys s TASKS_keys_NoDup)
    as (s' & H & _ & Hout & Hin).
  by exists s'.
Qed.

(* ===================================================================== *)
(** ** The agent tool                                                     *)
(* ===================================================================== *)

Lemma has_slash_app a b : has_slash (a +:+ b) = has_slash a || has_slash b.
Proof.
  induction a as [|c a IH]; [done|].
  change (Ascii.eqb c "/"%char || has_slash (a +:+ b)
          = Ascii.eqb c "/"%char || has_slash a || has_slash b).
  rewrite IH. by destruct (Ascii.eqb c "/"%char), (has_slash a).
Qed.

(** The base name of [dir/file] is [file] when [file] has no slash. *)
Lemma basename_join dir file :
  has_slash file = false -> basename (dir +:+ "/" +:+ file) = file.
Proof.
  intros Hf. induction dir as [|c dir IH].
  - change (basename (String "/"%char file) = file). simpl. by rewrite Hf.
  - change (basename (String c (dir +:+ "/" +:+ file)) = file). simpl.
    rewrite has_slash_app.
    change (has_slash ("/" +:+ file)) with (true || has_slash file).
    rewrite orb_true_r. exact IH.
Qed.

Lemma TASKS_keys_no_slash t : t ∈ TASKS_keys -> has_slash t = false.
Proof.
  revert t. apply Forall_forall. apply (bool_decide_unpack _). vm_compute. exact I.
Qed.

Lemma basename_save_path w img t :
  has_slash (path_stem w img) = false -> t ∈ TASKS_keys ->
  basename (save_path_of w img t) = path_stem w img +:+ "_" +:+ t +:+ "_cam.png".
Proof.
  intros Hs Ht. unfold save_path_of. apply basename_join.
  rewrite !has_slash_app, Hs, (TASKS_keys_no_slash t Ht). reflexivity.
Qed.

Lemma dict_set_new {V} (k : string) (v : V) d :
  k ∉ dict_keys d -> dict_set k v d = d ++ [(k, v)].
Proof.
  unfold dict_keys. induction d as [|[k' v'] d IH]; simpl; [done|].
  intros Hn. apply not_elem_of_cons in Hn as [Hne Hn].
  destruct (decide (k = k')); [done|]. by rewrite IH.
Qed.

(** On entries of the shape the engine produces, under distinct keys,
    the formatting loop completes and keeps keys and order. *)
Lemma format_loop_map te items : forall acc,
  Forall (fun item => exists pred path, item.2 = profile_entry pred path) items ->
  NoDup (dict_keys items) ->
  (forall k, k ∈ dict_keys items -> k ∉ dict_keys acc) ->
  format_loop te items acc =
  Some (acc ++ map (fun item => (item.1, default [] (format_entry te item.2))) items).
Proof.
  unfold dict_keys.
  induction items as [|[t data] items IH]; intros acc Hshape Hnd Hfresh.
  - simpl. by rewrite app_nil_r.
  - apply Forall_cons in Hshape as [(pred & path & Hdata) Hshape].
    rewrite fmap_cons in Hnd. apply NoDup_cons in Hnd as [Ht Hnd].
    simpl in *. subst data.
    change (format_entry te (profile_entry pred path))
      with (Some (tool_entry te pred (basename path))). simpl.
    rewrite dict_set_new by (apply Hfresh; left).
    rewrite IH; [by rewrite <- app_assoc|done..|].
    intros k Hk. unfold dict_keys. rewrite fmap_app. simpl.
    intros Hin. apply elem_of_app in Hin as [Hin|Hin].
    + apply (Hfresh k); [by right|done].
    + apply list_elem_of_singleton in Hin as ->. done.
Qed.

(** The mapping of [run_full_profile]: its keys and the shape and path
    of its entries. *)
Lemma profile_result_shape w img s :
  exists res s', run_full_profile w img s = (Ok res, s') /\
    dict_keys res = filter (fun t => task_succeeds w img s t = true) TASKS_keys /\
    Forall (fun item => exists pred,
              item.2 = profile_entry pred (save_path_of w img item.1)) res.
Proof.
  destruct (profile_loop_spec w img TASKS_keys s TASKS_keys_NoDup)
    as (res & s' & H & Hk & _).
  exists res, s'. split; [done|]. split; [done|].
  destruct (profile_loop_rule w img
    (fun _ res _ => Forall (fun item => exists pred,
        item.2 = profile_entry pred (save_path_of w img item.1)) res) TASKS_keys)
    with (acc := @nil (string * list (string * pyval))) (s := s)
    as (res2 & s2 & H2 & Hall).
  - intros done t rest acc s0 r s0' _ Hinv Hstep.
    destruct (profile_step_cases w img t acc s0)
      as (r1 & s1 & Hs1 & rp & sp & Hp & _ & _ & _ & _ & Hr).
    rewrite Hstep in Hs1. injection Hs1 as <- <-.
    destruct rp as [[pred map_path]|e]; [|by destruct Hr as [-> _]].
    destruct Hr as [-> _].
    apply predict_and_explain_success_inv in Hp as (-> & _).
    apply dict_set_Forall; [|done]. by exists pred.
  - constructor.
  - rewrite H in H2. by injection H2 as <- <-.
Qed.

(** With the engine importable and an API object at hand, the tool runs
    the profile on it and returns every entry formatted, in order. *)
Lemma tool_run_results te w img p api0 :
  inference_importable te = true ->
  (get_ocular_api te (api_instance p)).1 = Some api0 ->
  exists res api',
    run_full_profile w img api0 = (Ok res, api') /\
    dict_keys res = filter (fun t => task_succeeds w img api0 t = true) TASKS_keys /\
    Forall (fun item => exists pred,
              item.2 = profile_entry pred (save_path_of w img item.1)) res /\
    analyze_retinal_scan te w img p =
    (ReplyResults (map (fun item => (item.1, default [] (format_entry te item.2))) res),
     {| api_instance := Some api';
        LAST_TOOL_RESULTS :=
          map (fun item => (item.1, default [] (format_entry te item.2))) res |}).
Proof.
  intros Himp Hapi.
  destruct (profile_result_shape w img api0) as (res & api' & Hrun & Hk & Hshape).
  exists res, api'. split_and!; [done..|].
  unfold analyze_retinal_scan. rewrite Himp. simpl.
  destruct (get_ocular_api te (api_instance p)) as [h g]. simpl in Hapi. subst h.
  rewrite Hrun.
  rewrite (format_loop_map te res []).
  - done.
  - eapply Forall_impl; [exact Hshape|]. intros item [pred ->]. eauto.
  - rewrite Hk. apply NoDup_filter, TASKS_keys_NoDup.
  - intros k _ Hin. inversion Hin.
Qed.

Lemma get_ocular_api_available te p :
  is_Some (api_instance p) \/ api_constructible te = true ->
  (get_ocular_api te (api_instance p)).1 =
  Some (default (api_init CHECKPOINT_DIR) (api_instance p)).
Proof.
  unfold get_ocular_api. intros [[api ->]| ->]; [done|].
  by destruct (api_instance p).
Qed.

(** X15.  When the inference module can be imported and an API object
    exists or can be constructed, [analyze_retinal_scan] never answers
    with an error document: it returns one formatted entry per task the
    engine reports, in registry order, stores the same dict in
    [_LAST_TOOL_RESULTS], and leaves the API object in [_api_instance]. *)
Theorem tool_reports_engine_keys te w img p :
  inference_importable te = true ->
  is_Some (api_instance p) \/ api_constructible te = true ->
  exists formatted p',
    analyze_retinal_scan te w img p = (ReplyResults formatted, p') /\
    LAST_TOOL_RESULTS p' = formatted /\
    is_Some (api_instance p') /\
    dict_keys formatted =
      filter (fun t => task_succeeds w img
                         (default (api_init CHECKPOINT_DIR) (api_instance p)) t = true)
             TASKS_keys.
Proof.
  intros Himp Havail.
  destruct (tool_run_results te w img p _ Himp (get_ocular_api_available te p Havail))
    as (res & api' & _ & Hk & _ & Htool).
  eexists _, _. split; [exact Htool|]. simpl. split_and!; [done|eauto|].
  rewrite <- Hk. unfold dict_keys. rewrite <- list_fmap_compose. done.
Qed.

Lemma tool_reports_engine_keys_witness :
  exists formatted p',
    analyze_retinal_scan demo_tool_env (demo_world (ImgGood black_image)) "scan.jpg"
      {| api_instance := Some (api_init "ckpt"); LAST_TOOL_RESULTS := [] |}
    = (ReplyResults formatted, p') /\
    dict_keys formatted = ["Age"; "Gender"].
Proof.
  destruct (tool_reports_engine_keys demo_tool_env (demo_world (ImgGood black_image))
              "scan.jpg"
              {| api_instance := Some (api_init "ckpt"); LAST_TOOL_RESULTS := [] |})
    as (formatted & p' & H & _ & _ & Hk).
  - reflexivity.
  - left. simpl. eauto.
  - exists formatted, p'. split; [exact H|].
    rewrite Hk. vm_compute. reflexivity.
Defined.

(** X16.  Under the same conditions, and with an image stem free of
    slashes, each entry of the tool's reply corresponds to the engine's
    entry of the same task: a class prediction becomes the class index
    with its probability, a scalar prediction becomes the scalar rounded
    to two places with a null probability, and the heatmap URL is
    [/gradcam/{stem}_{task}_cam.png]. *)
Theorem tool_entries_follow_engine te w img p :
  inference_importable te = true ->
  is_Some (api_instance p) \/ api_constructible te = true ->
  has_slash (path_stem w img) = false ->
  exists res api' formatted p',
    run_full_profile w img (default (api_init CHECKPOINT_DIR) (api_instance p))
      = (Ok res, api') /\
    analyze_retinal_scan te w img p = (ReplyResults formatted, p') /\
    Forall2 (fun eitem fitem =>
               fitem.1 = eitem.1 /\
               exists pred,
                 dict_get "prediction" eitem.2 = Some (PyPrediction pred) /\
                 fitem.2 = tool_entry te pred
                             (path_stem w img +:+ "_" +:+ eitem.1 +:+ "_cam.png"))
            res formatted.
Proof.
  intros Himp Havail Hstem.
  destruct (tool_run_results te w img p _ Himp (get_ocular_api_available te p Havail))
    as (res & api' & Hrun & Hk & Hshape & Htool).
  eexists res, api', _, _. split; [exact Hrun|]. split; [exact Htool|].
  apply Forall2_fmap_r, Forall_Forall2_diag, Forall_forall.
  intros [t data] Hitem.
  assert (Ht : t ∈ TASKS_keys).
  { assert (Hin : t ∈ dict_keys res).
    { unfold dict_keys. apply list_elem_of_fmap. by exists (t, data). }
    rewrite Hk in Hin. by apply list_elem_of_filter in Hin as [_ ?]. }
  rewrite Forall_forall in Hshape.
  destruct (Hshape _ Hitem) as [pred Hdata]. cbn [fst snd] in *. subst data.
  split; [done|]. exists pred. split; [reflexivity|].
  rewrite <- (basename_save_path w img t Hstem Ht). reflexivity.
Qed.

Lemma tool_entries_follow_engine_witness :
  exists formatted p',
    analyze_retinal_scan demo_tool_env (demo_world (ImgGood black_image)) "scan.jpg"
      {| api_instance := Some (api_init "ckpt"); LAST_TOOL_RESULTS := [] |}
    = (ReplyResults formatted, p') /\
    dict_get "Age" formatted
    = Some [("prediction", JFloat (Finite 0%R)); ("probability", JNull);
            ("gradcam_heatmap_url", JStr "/gradcam/scan_Age_cam.png")].
Proof.
  destruct (tool_entries_follow_engine demo_tool_env
              (demo_world (ImgGood black_image)) "scan.jpg"
              {| api_instance := Some (api_init "ckpt"); LAST_TOOL_RESULTS := [] |})
    as (res & api' & formatted & p' & _ & H & _).
  - reflexivity.
  - left. simpl. eauto.
  - reflexivity.
  - exists formatted, p'. split; [exact H|].
    assert (Hf : (analyze_retinal_scan demo_tool_env
                    (demo_world (ImgGood black_image)) "scan.jpg"
                    {| api_instance := Some (api_init "ckpt");
                       LAST_TOOL_RESULTS := [] |}).1 = ReplyResults formatted)
      by (by rewrite H).
    vm_compute in Hf. injection Hf as <-. vm_compute. reflexivity.
Defined.

(** X17.  When the image file is missing or cannot be decoded, the tool
    does not report an error: it returns the empty results document and
    empties [_LAST_TOOL_RESULTS]. *)
Theorem tool_on_unreadable_image te w img p :
  inference_importable te = true ->
  is_Some (api_instance p) \/ api_constructible te = true ->
  image_at w img = ImgMissing \/ image_at w img = ImgCorrupt ->
  exists p', analyze_retinal_scan te w img p = (ReplyResults [], p') /\
             LAST_TOOL_RESULTS p' = [].
Proof.
  intros Himp Havail Himg.
  destruct (tool_run_results te w img p _ Himp (get_ocular_api_available te p Havail))
    as (res & api' & _ & Hk & _ & Htool).
  rewrite filter_none in Hk.
  2:{ intros t Ht. rewrite task_succeeds_by_exn.
      destruct Himg as [Himg|Himg].
      - by rewrite (task_exn_no_image w img _ t FileNotFoundError) by auto.
      - by rewrite (task_exn_no_image w img _ t UnidentifiedImageError) by auto. }
  destruct res as [|item res]; [|done].
  eexists. split; [exact Htool|done].
Qed.

Lemma tool_on_unreadable_image_witness :
  exists p',
    analyze_retinal_scan demo_tool_env (demo_world ImgCorrupt) "scan.jpg"
      fresh_process = (ReplyResults [], p').
Proof.
  destruct (tool_on_unreadable_image demo_tool_env (demo_world ImgCorrupt)
              "scan.jpg" fresh_process) as (p' & H & _).
  - reflexivity.
  - right. reflexivity.
  - right. reflexivity.
  - exists p'. exact H.
Defined.

(** X18.  Calling the tool twice in a row on the same image gives the
    same reply both times, whatever the state of the process: the API
    object kept in [_api_instance] between the calls changes its cache
    but not its answers. *)
Theorem tool_reply_repeatable te w img p :
  exists reply p1 p2,
    analyze_retinal_scan te w img p = (reply, p1) /\
    analyze_retinal_scan te w img p1 = (reply, p2).
Proof.
  destruct (inference_importable te) eqn:Himp.
  2:{ unfold analyze_retinal_scan. rewrite Himp. simpl. eauto. }
  destruct (get_ocular_api te (api_instance p)) as [[api0|] g] eqn:Hget.
  2:{ assert (Hnone : api_instance p = None /\ api_constructible te = false /\ g = None).
      { unfold get_ocular_api in Hget.
        destruct (api_instance p); [done|].
        destruct (api_constructible te); [done|]. by injection Hget as <-. }
      destruct Hnone as (Hp & Hc & ->).
      unfold analyze_retinal_scan. rewrite Himp. simpl. rewrite Hget. simpl.
      unfold get_ocular_api. rewrite Hc. eauto. }
  assert (H0 : (get_ocular_api te (api_instance p)).1 = Some api0) by (by rewrite Hget).
  destruct (tool_run_results te w img p api0 Himp H0)
    as (res & api' & Hrun & _ & _ & Htool).
  set (F := fun item : string * list (string * pyval) =>
              (item.1, default [] (format_entry te item.2))) in *.
  set (p1 := {| api_instance := Some api'; LAST_TOOL_RESULTS := map F res |}) in *.
  assert (H1 : (get_ocular_api te (api_instance p1)).1 = Some api') by done.
  destruct (tool_run_results te w img p1 api' Himp H1)
    as (res2 & api2 & Hrun2 & _ & _ & Htool2).
  destruct (profile_repeatable_from w img api0) as (res' & s1 & s2 & Ha & Hb).
  rewrite Hrun in Ha. injection Ha as Hr1 Hs1. subst res' s1.
  rewrite Hrun2 in Hb. injection Hb as Hr2 Hs2. subst res2 s2.
  exists (ReplyResults (map F res)), p1. eexists. split; [exact Htool|exact Htool2].
Qed.

(* ===================================================================== *)
(** ** More on the cache and on the grid                                  *)
(* ===================================================================== *)

(** X19.  A model load is not undone by what fails after it.  If
    [predict_and_explain] raises although [load_model] succeeded (the
    image cannot be opened, decoding or the saliency pass fails), the
    task's model stays cached, and a later [load_model] of the task
    returns it without any I/O. *)
Theorem failed_prediction_keeps_model w img t s e s' :
  predict_and_explain w img t s = (Raise e, s') ->
  load_failure w s t = None ->
  exists m, models_cache s' !! t = Some m /\ load_model w t s' = (Ok m, s').
Proof.
  intros Hp Hload.
  apply predict_and_explain_cases in Hp as (rl & sl & Hl & _ & Hc & _).
  unfold load_failure in Hload. rewrite Hl in Hload. simpl in Hload.
  destruct rl as [m|e']; [|done].
  apply load_model_slot_after in Hl as [Hslot _]. rewrite <- Hc in Hslot.
  destruct (models_cache s' !! t) as [m'|] eqn:Hm; [|done].
  exists m'. split; [done|]. by apply load_model_hit.
Qed.

Lemma failed_prediction_keeps_model_witness :
  exists m,
    models_cache
      (predict_and_explain (demo_world ImgMissing) "gone.jpg" "Age"
         (api_init "ckpt")).2 !! "Age" = Some m.
Proof.
  destruct (failed_prediction_keeps_model (demo_world ImgMissing) "gone.jpg" "Age"
              (api_init "ckpt") FileNotFoundError
              (predict_and_explain (demo_world ImgMissing) "gone.jpg" "Age"
                 (api_init "ckpt")).2) as (m & Hm & _).
  - vm_compute. reflexivity.
  - vm_compute. reflexivity.
  - exists m. exact Hm.
Defined.

(** X20.  The grid loses no patch token.  When the transform succeeds,
    channel c of token k (k at least 1) of batch b is found in the grid
    at row (k-1) div width and column (k-1) mod width, and that cell is
    inside the grid. *)
Theorem grid_holds_every_patch_token {A} (tensor : Vit.tensor3 A)
    (height width : nat) (result : Vit.tensor4 A) b c k :
  Vit.reshape_transform_vit tensor (Z.of_nat height) (Z.of_nat width) = Ok result ->
  Vit.size1 tensor = S (height * width) ->
  b < Vit.size0 tensor -> c < Vit.size2 tensor ->
  1 <= k < Vit.size1 tensor ->
  (k - 1) / width < height /\ (k - 1) mod width < width /\
  Vit.at4 result b c ((k - 1) / width) ((k - 1) mod width) = Vit.at3 tensor b k c.
Proof.
  intros Hr Htok Hb Hc Hk.
  assert (Hw : width <> 0) by (intros ->; lia).
  assert (Hcol : (k - 1) mod width < width) by (apply Nat.mod_upper_bound; done).
  assert (Hrow : (k - 1) / width < height).
  { apply Nat.Div0.div_lt_upper_bound. lia. }
  split; [done|]. split; [done|].
  rewrite reshape_transform_vit_plain in Hr.
  destruct (Nat.eqb _ _); [|done]. injection Hr as <-. simpl.
  rewrite Htok. replace (S (height * width) - 1) with (height * width) by lia.
  destruct (grid_index_split b ((k - 1) / width) ((k - 1) mod width) c
              height width (Vit.size2 tensor) Hrow Hcol Hc) as (-> & -> & ->).
  f_equal.
  pose proof (Nat.div_mod (k - 1) width Hw) as Hdm. lia.
Qed.

Lemma grid_holds_every_patch_token_witness :
  exists result,
    Vit.reshape_transform_vit Vit.five_tokens 2 2 = Ok result /\
    Vit.at4 result 0 0 ((3 - 1) / 2) ((3 - 1) mod 2) = 3.
Proof.
  eexists. split; [reflexivity|].
  refine (proj2 (proj2 (grid_holds_every_patch_token Vit.five_tokens 2 2 _ 0 0 3
                          eq_refl eq_refl _ _ _))); simpl; lia.
Defined.
